(** * pyrewall: the log scanner ([log_scanner.py])

    A shallow embedding of the burst detector of [log_scanner.py] and the
    properties its specification states about it.

    Conventions of the embedding.
    - A Python [str] is a [list ascii]; the model covers ASCII input.
    - A Python [int] is a [Z].
    - A [datetime] is the number of seconds since 0001-01-01 00:00:00, the
      first instant [datetime] can hold, a [Z]; a [timedelta] is a number of
      seconds.  The scanner has no fraction of a second.  [timedelta(...)]
      and [datetime + timedelta] raise [OverflowError] outside their ranges.
    - [print] and [subprocess.run] are recorded as a list of effects, in
      program order.
    - The two exceptions that nothing catches, [IndexError] and
      [OverflowError], are explicit outcomes of the code that raises them. *)

From Stdlib Require Import ZArith List Ascii String Bool Lia.
From Stdlib Require Import Permutation Sorting.Sorted DecimalString DecimalPos.
Import ListNotations.
Open Scope Z_scope.

(* ================================================================= *)
(** * Part I.  Definitions *)
(* ================================================================= *)

Definition str := list ascii.

Notation "$ s" := (list_ascii_of_string s) (at level 1, s at level 0, only parsing).

(** ** Python built-ins used by the scanner *)

Fixpoint str_eqb (a b : str) : bool :=
  match a, b with
  | [], [] => true
  | x :: a', y :: b' => Ascii.eqb x y && str_eqb a' b'
  | _, _ => false
  end.

(** [len(l)] *)
Definition len {A} (l : list A) : Z := Z.of_nat (List.length l).

(** [range(start, stop)] *)
Definition range2 (start stop : Z) : list Z :=
  map (fun k => start + Z.of_nat k) (seq 0 (Z.to_nat (stop - start))).

(** [range(stop)] *)
Definition range (stop : Z) : list Z := range2 0 stop.

(** [l[i]]: negative indices count from the end; [None] is [IndexError]. *)
Definition getitem {A} (l : list A) (i : Z) : option A :=
  if i <? 0
  then if len l + i <? 0 then None else nth_error l (Z.to_nat (len l + i))
  else nth_error l (Z.to_nat i).

(** [list.sort()] on timestamps: ascending.  The sort of Python is stable;
    on integers stability cannot be observed, so an insertion sort stands
    for it. *)
Fixpoint insert_sorted (x : Z) (l : list Z) : list Z :=
  match l with
  | [] => [x]
  | y :: l' => if x <=? y then x :: l else y :: insert_sorted x l'
  end.

Fixpoint sort (l : list Z) : list Z :=
  match l with
  | [] => []
  | x :: l' => insert_sorted x (sort l')
  end.

(** ** Effects *)

(** What [subprocess.run(command, check=True, ...)] can do in
    [add_to_ipset]. *)
Inductive run_result : Type :=
| RunOk
| CalledProcessError (stderr : str)
| FileNotFoundError.

Inductive message : Type :=
| MsgDurationError                                   (* [ERROR] Error parsing time arguments *)
| MsgLogNotFound                                     (* [ERROR] Log file not found *)
| MsgFinishedReading (matched_lines : Z)
| MsgWarning (ip : str)                              (* [WARNING] Could not parse ... Skipping. *)
| MsgViolation (ip : str) (version : Z)              (* [VIOLATION] IP: ... (v...) *)
| MsgDetails (hits window_start window_end : Z)      (* -> Details: Found ... hits between ... *)
| MsgDryrun (ip ipset_name : str) (timeout : Z)      (* -> [DRYRUN] Would add IP ... *)
| MsgAction (ip ipset_name : str) (timeout : Z)      (* -> [ACTION] Adding IP ... *)
| MsgIpsetFailed (ip ipset_name stderr : str)        (* -> [ERROR] Failed to add ... *)
| MsgIpsetMissing                                    (* -> [ERROR] 'ipset' command not found *)
| MsgSummary (total_lines matched_lines unique_ips triggered : Z).

Inductive effect : Type :=
| Print (m : message)
| Run (command : list str).

(** ** Characters and [str] methods (ASCII) *)

Definition code (c : ascii) : Z := Z.of_N (N_of_ascii c).

Definition in_range (lo hi : Z) (c : ascii) : bool :=
  (lo <=? code c) && (code c <=? hi).

(** [c.isdigit()] / the class [\d] *)
Definition is_digit (c : ascii) : bool := in_range 48 57 c.

(** [c.isspace()] / the class [\s]: TAB..CR, FS..US and the space. *)
Definition is_space (c : ascii) : bool :=
  in_range 9 13 c || in_range 28 32 c.

(** the class [\w] *)
Definition is_word (c : ascii) : bool :=
  is_digit c || in_range 65 90 c || in_range 97 122 c || (code c =? 95).

(** the characters of [string.hexdigits] *)
Definition is_hex (c : ascii) : bool :=
  is_digit c || in_range 65 70 c || in_range 97 102 c.

Definition lower_char (c : ascii) : ascii :=
  if in_range 65 90 c then ascii_of_N (N_of_ascii c + 32) else c.

(** [s.lower()] *)
Definition lower (s : str) : str := map lower_char s.

(** [c in s] for a single character *)
Definition contains (c : ascii) (s : str) : bool := existsb (Ascii.eqb c) s.

Fixpoint lstrip (s : str) : str :=
  match s with
  | c :: s' => if is_space c then lstrip s' else s
  | [] => []
  end.

(** [s.strip()] *)
Definition strip (s : str) : str := rev (lstrip (rev (lstrip s))).

(** [s.split(sep)] for a one-character separator. *)
Fixpoint split_on (sep : ascii) (s : str) : list str :=
  match s with
  | [] => [[]]
  | c :: s' =>
      if Ascii.eqb c sep then [] :: split_on sep s'
      else match split_on sep s' with
           | w :: ws => (c :: w) :: ws
           | [] => [[c]]
           end
  end.

Definition digit_val (c : ascii) : Z := code c - 48.

(** The white space [int()] skips around a literal in an ASCII [str]:
    TAB..CR and the space ([Py_ISSPACE]), not FS..US. *)
Definition is_int_space (c : ascii) : bool :=
  in_range 9 13 c || (code c =? 32).

Fixpoint int_lstrip (s : str) : str :=
  match s with
  | c :: s' => if is_int_space c then int_lstrip s' else s
  | [] => []
  end.

Definition int_strip (s : str) : str := rev (int_lstrip (rev (int_lstrip s))).

(** [sys.int_info.default_max_str_digits], the limit of [int()] on the
    number of digits of a decimal literal (CPython 3.11 and later). *)
Definition int_max_str_digits : Z := 4300.

(** The digits of a literal; underscores are not counted. *)
Definition count_digits (s : str) : Z := len (filter is_digit s).

(** The digits of a decimal literal of [int()]: one or more digits, single
    underscores allowed between two digits. *)
Fixpoint int_digits (acc : Z) (after_digit : bool) (s : str) : option Z :=
  match s with
  | [] => if after_digit then Some acc else None
  | c :: s' =>
      if is_digit c then int_digits (10 * acc + digit_val c) true s'
      else if Ascii.eqb c "_"
           then if after_digit then int_digits acc false s' else None
           else None
  end.

(** The literal after the sign: refused when it has more digits than the
    limit. *)
Definition int_literal (r : str) : option Z :=
  if int_max_str_digits <? count_digits r then None
  else int_digits 0 false r.

(** [int(s)] in base 10; [None] is [ValueError].  White space around the
    literal is ignored, one sign is allowed. *)
Definition py_int (s : str) : option Z :=
  match int_strip s with
  | [] => None
  | c :: r =>
      if Ascii.eqb c "+" then int_literal r
      else if Ascii.eqb c "-" then option_map Z.opp (int_literal r)
      else int_literal (c :: r)
  end.

(** ** [parse_duration_to_seconds] *)

(** The two [ValueError]s the function raises. *)
Inductive duration_error : Type :=
| InvalidFormat      (* "Invalid duration format: ... Use s, m, h, or d." *)
| InvalidValue.      (* "Invalid duration value in ..." *)

(** The dictionary [multipliers]. *)
Definition multipliers (unit : ascii) : option Z :=
  if Ascii.eqb unit "s" then Some 1
  else if Ascii.eqb unit "m" then Some 60
  else if Ascii.eqb unit "h" then Some 3600
  else if Ascii.eqb unit "d" then Some 86400
  else None.

Definition parse_duration_to_seconds (duration_str : str) : Z + duration_error :=
  let duration_str := lower duration_str in
  match getitem duration_str (-1) with
  | None => inr InvalidFormat                         (* not duration_str *)
  | Some unit =>
      match multipliers unit with
      | None => inr InvalidFormat                     (* not in multipliers *)
      | Some m =>
          match py_int (removelast duration_str) with (* int(duration_str[:-1]) *)
          | None => inr InvalidValue
          | Some value => inl (value * m)
          end
      end
  end.

(** ** [ipaddress.ip_address], from the standard library

    Only the [version] of the result is used by the scanner, so the model
    returns the version ([4] or [6]), or [None] for [ValueError].  It follows
    [IPv4Address] and [IPv6Address] of CPython 3.9.5 and later (an octet with
    a leading zero is refused). *)

(** [IPv4Address._parse_octet] *)
Definition parse_octet (octet_str : str) : option Z :=
  match octet_str with
  | [] => None
  | c :: _ =>
      if negb (forallb is_digit octet_str) then None
      else if 3 <? len octet_str then None
      else if negb (str_eqb octet_str ($"0")) && Ascii.eqb c "0" then None
      else match int_digits 0 false octet_str with
           | Some octet_int => if 255 <? octet_int then None else Some octet_int
           | None => None
           end
  end.

Definition ipv4_valid (address : str) : bool :=
  if contains "/" address then false
  else
    let octets := split_on "." address in
    (len octets =? 4)
    && forallb (fun o => match parse_octet o with Some _ => true | None => false end) octets.

(** [IPv6Address._parse_hextet] *)
Definition hextet_valid (hextet_str : str) : bool :=
  forallb is_hex hextet_str
  && (len hextet_str <=? 4)
  && negb (str_eqb hextet_str []).

(** [_split_scope_id]: the address part, [None] for an invalid scope. *)
Fixpoint split_scope_id (ip_str : str) : option str :=
  match ip_str with
  | [] => Some []
  | c :: s' =>
      if Ascii.eqb c "%"
      then match s' with
           | [] => None
           | _ => if contains "%" s' then None else Some []
           end
      else option_map (cons c) (split_scope_id s')
  end.

(** The indices [i] of [range(1, len(parts) - 1)] with [parts[i]] empty. *)
Definition skip_indices (parts : list str) : list Z :=
  filter (fun i => match getitem parts i with
                   | Some [] => true
                   | _ => false
                   end)
         (range2 1 (len parts - 1)).

Definition is_empty (s : str) : bool := str_eqb s [].

(** [IPv6Address._ip_int_from_string], validity only.  An IPv4 suffix is
    replaced by the two hextets it denotes, which are always valid; ["0"]
    stands for each. *)
Definition ipv6_parts_valid (parts0 : list str) : bool :=
  if len parts0 <? 3 then false
  else
    let last_part := last parts0 [] in
    let suffix_ok := negb (contains "." last_part) || ipv4_valid last_part in
    let parts := if contains "." last_part
                 then removelast parts0 ++ [$"0"; $"0"]
                 else parts0 in
    if negb suffix_ok then false
    else if 9 <? len parts then false
    else
      let first_empty := is_empty (hd [] parts) in
      let last_empty := is_empty (last parts []) in
      match skip_indices parts with
      | _ :: _ :: _ => false                          (* at most one '::' *)
      | [skip_index] =>
          let parts_hi := skip_index in
          let parts_lo := len parts - skip_index - 1 in
          let parts_hi' := if first_empty then parts_hi - 1 else parts_hi in
          let parts_lo' := if last_empty then parts_lo - 1 else parts_lo in
          if first_empty && negb (parts_hi' =? 0) then false
          else if last_empty && negb (parts_lo' =? 0) then false
          else if 8 - (parts_hi' + parts_lo') <? 1 then false
          else
            forallb hextet_valid (firstn (Z.to_nat parts_hi') parts)
            && forallb hextet_valid
                 (skipn (Z.to_nat (len parts - parts_lo')) parts)
      | [] =>
          if negb (len parts =? 8) then false
          else if first_empty then false
          else if last_empty then false
          else forallb hextet_valid parts
      end.

Definition ipv6_valid (address : str) : bool :=
  if contains "/" address then false
  else match split_scope_id address with
       | None => false
       | Some [] => false                             (* address cannot be empty *)
       | Some addr_str => ipv6_parts_valid (split_on ":" addr_str)
       end.

(** [ipaddress.ip_address(address).version] *)
Definition ip_address (address : str) : option Z :=
  if ipv4_valid address then Some 4
  else if ipv6_valid address then Some 6
  else None.

(** ** Regular expressions ([re])

    The fragment of [re] the scanner and [strptime] use: literals, greedy
    repetition of a character class, concatenation, ordered alternatives and
    named groups, matched by backtracking in the order of [re]. *)

Inductive regex : Type :=
| Lit (ignorecase : bool) (s : str)
| Rep (cls : ascii -> bool) (min : nat) (max : option nat)
| Cat (r1 r2 : regex)
| Alt (r1 r2 : regex)
| Group (name : str) (r : regex).

Notation "r1 ~> r2" := (Cat r1 r2) (at level 60, right associativity).

(** The groups of a match, latest first. *)
Definition groups := list (str * str).

Fixpoint group (g : groups) (name : str) : option str :=
  match g with
  | [] => None
  | (n, v) :: g' => if str_eqb n name then Some v else group g' name
  end.

Definition char_eqb (ignorecase : bool) (a b : ascii) : bool :=
  if ignorecase then Ascii.eqb (lower_char a) (lower_char b) else Ascii.eqb a b.

(** The input left after the literal, if the input starts with it. *)
Fixpoint match_lit (ignorecase : bool) (lit s : str) : option str :=
  match lit, s with
  | [], _ => Some s
  | a :: lit', c :: s' =>
      if char_eqb ignorecase a c then match_lit ignorecase lit' s' else None
  | _ :: _, [] => None
  end.

(** Greedy [cls{min,max}]: the longest run first, then shorter ones. *)
Fixpoint match_rep {R} (cls : ascii -> bool) (min : nat) (max : option nat)
         (s : str) (k : str -> option R) : option R :=
  let stop := match min with O => k s | S _ => None end in
  match s with
  | [] => stop
  | c :: s' =>
      if cls c && match max with Some O => false | _ => true end
      then match match_rep cls (Nat.pred min) (option_map Nat.pred max) s' k with
           | Some res => Some res
           | None => stop
           end
      else stop
  end.

(** [rmatch r s g k]: match [r] at the start of [s], then continue with [k]
    on the rest of the input; [None] makes the matcher backtrack. *)
Fixpoint rmatch {R} (r : regex) (s : str) (g : groups)
         (k : str -> groups -> option R) : option R :=
  match r with
  | Lit ic l =>
      match match_lit ic l s with
      | Some s' => k s' g
      | None => None
      end
  | Rep cls mn mx => match_rep cls mn mx s (fun s' => k s' g)
  | Cat r1 r2 => rmatch r1 s g (fun s1 g1 => rmatch r2 s1 g1 k)
  | Alt r1 r2 =>
      match rmatch r1 s g k with
      | Some res => Some res
      | None => rmatch r2 s g k
      end
  | Group name r1 =>
      rmatch r1 s g
        (fun s1 g1 =>
           k s1 ((name, firstn (List.length s - List.length s1) s) :: g1))
  end.

(** [r.match(s)]: the groups and the input after the match. *)
Definition re_match (r : regex) (s : str) : option (str * groups) :=
  rmatch r s [] (fun s' g => Some (s', g)).

Definition star (cls : ascii -> bool) : regex := Rep cls 0 None.
Definition plus (cls : ascii -> bool) : regex := Rep cls 1 None.
Definition one (cls : ascii -> bool) : regex := Rep cls 1 (Some 1%nat).
Definition text (s : string) : regex := Lit false (list_ascii_of_string s).

(** [.] *)
Definition dot (c : ascii) : bool := negb (code c =? 10).

(** ** The log pattern *)

(** [[\d:]] *)
Definition digit_colon (c : ascii) : bool := is_digit c || Ascii.eqb c ":".

(** [[\d\.:a-fA-F]] *)
Definition ip_chars (c : ascii) : bool :=
  is_digit c || Ascii.eqb c "." || Ascii.eqb c ":"
  || in_range 97 102 c || in_range 65 70 c.

(** [^(?P<timestamp>\w{3}\s+\d+\s+[\d:]+).*(?:IPTABLES|IP6TABLES)-(?P<rule>\w+):.*SRC=(?P<ip>[\d\.:a-fA-F]+).*PROTO=(?P<proto>\w+)] *)
Definition log_pattern : regex :=
  Group ($"timestamp")
        (Rep is_word 3 (Some 3%nat) ~> plus is_space ~> plus is_digit
         ~> plus is_space ~> plus digit_colon)
  ~> star dot
  ~> Alt (text "IPTABLES") (text "IP6TABLES") ~> text "-"
  ~> Group ($"rule") (plus is_word) ~> text ":"
  ~> star dot
  ~> text "SRC=" ~> Group ($"ip") (plus ip_chars)
  ~> star dot
  ~> text "PROTO=" ~> Group ($"proto") (plus is_word).

(** [log_pattern.search(line)].  The pattern starts with [^] and is compiled
    without [re.MULTILINE], so a match can only start at the first
    character: [search] is [match]. *)
Definition log_pattern_search (line : str) : option groups :=
  option_map snd (re_match log_pattern line).

(** ** [datetime.strptime(s, "%b %d %H:%M:%S")], from the standard library

    [_strptime] turns the format into a regular expression (each run of
    white space of the format becomes [\s+]), compiled with [re.IGNORECASE];
    the month names are those of the C locale. *)

Definition a_month : list str :=
  map list_ascii_of_string
      ["jan"; "feb"; "mar"; "apr"; "may"; "jun";
       "jul"; "aug"; "sep"; "oct"; "nov"; "dec"]%string.

Definition alternatives (l : list regex) : regex :=
  match l with
  | [] => Lit false []
  | r :: l' => fold_left Alt l' r
  end.

(** [%b] *)
Definition re_b : regex := alternatives (map (Lit true) a_month).
(** [%d]: [3[0-1]|[1-2]\d|0[1-9]|[1-9]| [1-9]] *)
Definition re_d : regex :=
  alternatives
    [ text "3" ~> one (in_range 48 49);
      one (in_range 49 50) ~> one is_digit;
      text "0" ~> one (in_range 49 57);
      one (in_range 49 57);
      text " " ~> one (in_range 49 57) ].
(** [%H]: [2[0-3]|[0-1]\d|\d] *)
Definition re_H : regex :=
  alternatives
    [ text "2" ~> one (in_range 48 51);
      one (in_range 48 49) ~> one is_digit;
      one is_digit ].
(** [%M]: [[0-5]\d|\d] *)
Definition re_M : regex :=
  alternatives [ one (in_range 48 53) ~> one is_digit; one is_digit ].
(** [%S]: [6[0-1]|[0-5]\d|\d] *)
Definition re_S : regex :=
  alternatives
    [ text "6" ~> one (in_range 48 49);
      one (in_range 48 53) ~> one is_digit;
      one is_digit ].

Definition format_regex : regex :=
  Group ($"b") re_b ~> plus is_space ~> Group ($"d") re_d ~> plus is_space
  ~> Group ($"H") re_H ~> text ":" ~> Group ($"M") re_M ~> text ":"
  ~> Group ($"S") re_S.

(** [a_month.index(name)], counted from 1. *)
Fixpoint month_index (name : str) (months : list str) (i : Z) : option Z :=
  match months with
  | [] => None
  | m :: months' => if str_eqb m name then Some i else month_index name months' (i + 1)
  end.

Definition is_leap (year : Z) : bool :=
  ((year mod 4 =? 0) && negb (year mod 100 =? 0)) || (year mod 400 =? 0).

Definition days_in_month (year month : Z) : Z :=
  if month =? 2 then (if is_leap year then 29 else 28)
  else if (month =? 4) || (month =? 6) || (month =? 9) || (month =? 11) then 30
  else 31.

(** The fields of a [datetime] without its year. *)
Record moment : Type := Moment {
  mo_month : Z; mo_day : Z; mo_hour : Z; mo_minute : Z; mo_second : Z
}.

(** [None] is [ValueError]: no match, unconverted data, or a field out of
    range for [datetime(1900, month, day, hour, minute, second)]. *)
Definition strptime (data_string : str) : option moment :=
  match re_match format_regex data_string with
  | Some ([], found) =>
      match group found ($"b"), group found ($"d"), group found ($"H"),
            group found ($"M"), group found ($"S") with
      | Some b, Some d, Some hh, Some mm, Some ss =>
          match month_index (lower b) a_month 1,
                py_int d, py_int hh, py_int mm, py_int ss with
          | Some month, Some day, Some hour, Some minute, Some second =>
              if (1 <=? day) && (day <=? days_in_month 1900 month)
                 && (second <=? 59)
              then Some (Moment month day hour minute second)
              else None
          | _, _, _, _, _ => None
          end
      | _, _, _, _, _ => None
      end
  | _ => None
  end.

(** Days of the year before the first day of [month]. *)
Definition days_before_month (year month : Z) : Z :=
  fold_right Z.add 0
    (map (days_in_month year) (range2 1 month)).

(** Days before January 1st of [year], counted from 0001-01-01. *)
Definition days_before_year (year : Z) : Z :=
  let y := year - 1 in
  y * 365 + y / 4 - y / 100 + y / 400.

(** [t.replace(year=year)], in seconds since 0001-01-01 00:00:00; [year]
    is [datetime.now().year], a year of 1..9999. *)
Definition replace_year (year : Z) (t : moment) : Z :=
  ((((days_before_year year + days_before_month year (mo_month t))
     + mo_day t - 1) * 24 + mo_hour t) * 60
   + mo_minute t) * 60 + mo_second t.

(** The exceptions of the scanner that nothing catches. *)
Inductive exception : Type :=
| IndexError
| OverflowError.

(** [timedelta(seconds=n)]; [None] is [OverflowError]: the days of a
    [timedelta] have a magnitude of 999999999 at most. *)
Definition timedelta (seconds : Z) : option Z :=
  let days := seconds / 86400 in
  if (-999999999 <=? days) && (days <=? 999999999) then Some seconds else None.

(** [datetime.max.toordinal()], the days of the years 1..9999. *)
Definition max_ordinal : Z := 3652059.

(** A [datetime] is an instant of the years 1..9999. *)
Definition is_datetime (t : Z) : bool :=
  (0 <=? t) && (t <? max_ordinal * 86400).

(** [t + delta] on a [datetime]; [None] is [OverflowError]. *)
Definition datetime_add (t delta : Z) : option Z :=
  if is_datetime (t + delta) then Some (t + delta) else None.

(** ** The scanner: [main] *)

(** The [argparse] namespace. *)
Record arguments : Type := Args {
  arg_rule : str;            (* --rule, one of blocked, allowed *)
  arg_type : str;            (* --type, one of tcp, udp, icmp *)
  arg_howmany : Z;           (* --howmany, type=int *)
  arg_within : str;          (* --within *)
  arg_ipset : str;           (* --ipset *)
  arg_removeafter : str;     (* --removeafter *)
  arg_dryrun : bool          (* --dryrun *)
}.

(** [str(n)], for the integers of at most 4300 digits that [str()]
    converts. *)
Definition py_str (n : Z) : str :=
  list_ascii_of_string (DecimalString.NilZero.string_of_int (Z.to_int n)).

(** [add_to_ipset]; [os] answers [subprocess.run]. *)
Definition add_to_ipset (os : list str -> run_result)
           (ipset_name ip : str) (timeout_seconds : Z) (dryrun : bool)
  : list effect :=
  if dryrun
  then [Print (MsgDryrun ip ipset_name timeout_seconds)]
  else
    let command := [$"ipset"; $"add"; ipset_name; ip; $"timeout";
                    py_str timeout_seconds; $"-exist"] in
    Print (MsgAction ip ipset_name timeout_seconds)
    :: Run command
    :: match os command with
       | RunOk => []
       | CalledProcessError stderr =>
           [Print (MsgIpsetFailed ip ipset_name (strip stderr))]
       | FileNotFoundError => [Print MsgIpsetMissing]
       end.

(** *** Phase 1: reading and filtering the log *)

(** [ip_timestamps], a [defaultdict(list)]: keys in insertion order. *)
Definition index := list (str * list Z).

(** [ip_timestamps[ip].append(t)] *)
Fixpoint index_append (ip : str) (t : Z) (idx : index) : index :=
  match idx with
  | [] => [(ip, [t])]
  | (k, ts) :: idx' =>
      if str_eqb k ip then (k, ts ++ [t]) :: idx'
      else (k, ts) :: index_append ip t idx'
  end.

(** What the body of the reading loop does with one line. *)
Inductive line_outcome : Type :=
| NoMatch                          (* [if not match: continue] *)
| Filtered                         (* rule or protocol differs: [continue] *)
| BadTimestamp                     (* [except ValueError: continue] *)
| Event (ip : str) (log_time : Z).

Definition extract (now_year : Z) (args : arguments) (line : str) : line_outcome :=
  match log_pattern_search line with
  | None => NoMatch
  | Some data =>
      match group data ($"rule"), group data ($"proto"),
            group data ($"ip"), group data ($"timestamp") with
      | Some rule, Some proto, Some ip, Some timestamp =>
          if negb (str_eqb (lower rule) (arg_rule args))
             || negb (str_eqb (lower proto) (arg_type args))
          then Filtered
          else match strptime timestamp with
               | Some t => Event ip (replace_year now_year t)
               | None => BadTimestamp
               end
      | _, _, _, _ => NoMatch      (* every group takes part in a match *)
      end
  end.

Record reader : Type := Reader {
  total_lines : Z;
  matched_lines : Z;
  ip_timestamps : index
}.

Definition read_line (now_year : Z) (args : arguments) (st : reader) (line : str)
  : reader :=
  let total := total_lines st + 1 in
  match extract now_year args line with
  | NoMatch | Filtered => Reader total (matched_lines st) (ip_timestamps st)
  | BadTimestamp => Reader total (matched_lines st + 1) (ip_timestamps st)
  | Event ip log_time =>
      Reader total (matched_lines st + 1)
             (index_append ip log_time (ip_timestamps st))
  end.

Definition read_log (now_year : Z) (args : arguments) (lines : list str) : reader :=
  fold_left (read_line now_year args) lines (Reader 0 0 []).

(** *** Phase 2: analysing the traffic *)

(** [sum(1 for j in js if timestamps[j] <= window_end_time)] *)
Fixpoint count_hits (timestamps : list Z) (window_end_time : Z) (js : list Z)
  : option Z :=
  match js with
  | [] => Some 0
  | j :: js' =>
      match getitem timestamps j with
      | None => None
      | Some tj =>
          match count_hits timestamps window_end_time js' with
          | None => None
          | Some c => Some (if tj <=? window_end_time then 1 + c else c)
          end
      end
  end.

(** How the loop over the window starts ends. *)
Inductive loop_end : Type :=
| Exhausted        (* the range ran out *)
| Broke            (* [break] after a violation *)
| Raised           (* [IndexError] *)
| Overflowed.      (* [OverflowError] *)

Section Scan.
Variable os : list str -> run_result.
Variable args : arguments.
Variables within_delta removeafter_seconds : Z.

(** The loop [for i in range(len(timestamps) - args.howmany + 1)] over the
    indices [starts] still to visit.  The end of the window is computed
    before anything is counted, and an end outside the years 1..9999
    raises [OverflowError].  The [continue] of the [except ValueError]
    branch is a statement of this loop: after the warning the next index is
    tried. *)
Fixpoint scan_windows (ip : str) (timestamps : list Z) (starts : list Z)
  : list effect * loop_end :=
  match starts with
  | [] => ([], Exhausted)
  | i :: starts' =>
      match getitem timestamps i with
      | None => ([], Raised)
      | Some window_start_time =>
          match datetime_add window_start_time within_delta with
          | None => ([], Overflowed)
          | Some window_end_time =>
              match count_hits timestamps window_end_time
                               (range2 (i + 1) (len timestamps)) with
              | None => ([], Raised)
              | Some c =>
                  let hits_in_window := 1 + c in
                  if arg_howmany args <=? hits_in_window
                  then
                    match ip_address ip with
                    | None =>                       (* [continue] *)
                        let (out, e) := scan_windows ip timestamps starts' in
                        (Print (MsgWarning ip) :: out, e)
                    | Some version =>
                        let target_ipset :=
                          if version =? 6 then arg_ipset args ++ $"_v6"
                          else arg_ipset args in
                        (Print (MsgViolation ip version)
                         :: Print (MsgDetails hits_in_window window_start_time
                                              window_end_time)
                         :: add_to_ipset os target_ipset ip removeafter_seconds
                                         (arg_dryrun args),
                         Broke)
                    end
                  else scan_windows ip timestamps starts'
              end
          end
      end
  end.

(** The body of [for ip, timestamps in ip_timestamps.items()]. *)
Definition analyze_ip (ip : str) (timestamps : list Z) : list effect * loop_end :=
  if len timestamps <? arg_howmany args then ([], Exhausted)
  else
    let timestamps := sort timestamps in
    scan_windows ip timestamps (range (len timestamps - arg_howmany args + 1)).

(** The whole loop: the effects, [triggered_ips] and the exception that
    ended the run, if any. *)
Fixpoint analyze (items : index) : list effect * list str * option exception :=
  match items with
  | [] => ([], [], None)
  | (ip, timestamps) :: items' =>
      match analyze_ip ip timestamps with
      | (out, Raised) => (out, [], Some IndexError)
      | (out, Overflowed) => (out, [], Some OverflowError)
      | (out, e) =>
          let '(out', triggered, raised) := analyze items' in
          (out ++ out',
           match e with Broke => ip :: triggered | _ => triggered end,
           raised)
      end
  end.
End Scan.

(** [main]; [log] is the content of the log file, [None] when it does not
    exist.  The banners are left out.  The result is what was printed and
    run, and the exception that ended the run, if any.  [--within] is
    parsed and turned into a [timedelta] before [--removeafter] is
    parsed. *)
Definition main (os : list str -> run_result) (now_year : Z)
           (args : arguments) (log : option (list str))
  : list effect * option exception :=
  match parse_duration_to_seconds (arg_within args) with
  | inr _ => ([Print MsgDurationError], None)
  | inl within_seconds =>
      match timedelta within_seconds with
      | None => ([], Some OverflowError)
      | Some within_delta =>
          match parse_duration_to_seconds (arg_removeafter args) with
          | inr _ => ([Print MsgDurationError], None)
          | inl removeafter_seconds =>
              match log with
              | None => ([Print MsgLogNotFound], None)
              | Some lines =>
                  let st := read_log now_year args lines in
                  let '(out, triggered, raised) :=
                    analyze os args within_delta removeafter_seconds
                            (ip_timestamps st) in
                  (Print (MsgFinishedReading (matched_lines st))
                   :: out
                   ++ (match raised with
                       | Some _ => []
                       | None =>
                           [Print (MsgSummary (total_lines st) (matched_lines st)
                                              (len (ip_timestamps st))
                                              (len triggered))]
                       end),
                   raised)
              end
          end
      end
  end.

(** ** Observations on a run, and the words of the specification *)

(** [[VIOLATION]] lines. *)
Definition is_violation (e : effect) : bool :=
  match e with
  | Print (MsgViolation _ _) => true
  | _ => false
  end.

(** A call of [add_to_ipset] prints exactly one of its two opening lines. *)
Definition is_sink_call (e : effect) : bool :=
  match e with
  | Print (MsgDryrun _ _ _) | Print (MsgAction _ _ _) => true
  | _ => false
  end.

(** An invocation of the [ipset] command. *)
Definition is_run (e : effect) : bool :=
  match e with
  | Run _ => true
  | _ => false
  end.

Definition count_of (p : effect -> bool) (out : list effect) : Z :=
  len (filter p out).

Definition reports_violation (r : list effect * loop_end) : Prop :=
  existsb is_violation (fst r) = true.

(** The same arguments with another threshold. *)
Definition with_howmany (args : arguments) (K : Z) : arguments :=
  Args (arg_rule args) (arg_type args) K (arg_within args)
       (arg_ipset args) (arg_removeafter args) (arg_dryrun args).

(** The hit count of the window that starts at index [i], as the
    specification words it: the start itself and every later event not
    after the end of the window. *)
Definition window_hits (W : Z) (t : list Z) (i : nat) : Z :=
  1 + len (filter (fun tj => tj <=? nth i t 0 + W) (skipn (S i) t)).

(** Lines that pass the pattern and the filter but carry a timestamp
    [strptime] refuses. *)
Definition is_bad_timestamp (o : line_outcome) : bool :=
  match o with
  | BadTimestamp => true
  | _ => false
  end.

(** The number of such lines in a log. *)
Definition count_bad (now_year : Z) (args : arguments) (lines : list str) : Z :=
  len (filter (fun l => is_bad_timestamp (extract now_year args l)) lines).

(** The number of events over all timelines. *)
Definition total_events (idx : index) : Z :=
  fold_right (fun kv acc => len (snd kv) + acc) 0 idx.

(** The duration grammar as the specification words it, [<integer><unit>]
    with a unit among s, m, h, d: an optional minus sign and decimal
    digits, then the unit. *)
Definition decimal (digits : str) : option Z :=
  match digits with
  | [] => None
  | _ => if forallb is_digit digits
         then Some (fold_left (fun acc c => 10 * acc + digit_val c) digits 0)
         else None
  end.

Definition spec_integer (s : str) : option Z :=
  match s with
  | c :: r => if Ascii.eqb c "-" then option_map Z.opp (decimal r) else decimal s
  | [] => None
  end.

Definition spec_duration (s : str) : option Z :=
  match s with
  | [] => None
  | _ => match multipliers (last s "0"%char), spec_integer (removelast s) with
         | Some m, Some v => Some (v * m)
         | _, _ => None
         end
  end.

(** What the pattern guarantees about an address it captures: the groups
    named [ip] are a non-empty run of the characters of [ip_chars]. *)
Definition captured_ip_ok (v : str) : Prop :=
  v <> [] /\ forallb ip_chars v = true.

Definition good_ip (g : groups) : Prop :=
  forall v, group g ($"ip") = Some v -> captured_ip_ok v.

(** A pattern whose groups named [ip], if any, are of the form
    [(?P<ip>cls{n,m})] with [cls] the class [ip_chars] and [n >= 1]. *)
Fixpoint ip_group_ok (r : regex) : Prop :=
  match r with
  | Lit _ _ | Rep _ _ _ => True
  | Cat r1 r2 | Alt r1 r2 => ip_group_ok r1 /\ ip_group_ok r2
  | Group name r1 =>
      ip_group_ok r1
      /\ (str_eqb name ($"ip") = true ->
          exists mn mx, r1 = Rep ip_chars (S mn) mx)
  end.

(** The ipset a violation of an address of [version] is sent to. *)
Definition target_ipset (args : arguments) (version : Z) : str :=
  if version =? 6 then arg_ipset args ++ $"_v6" else arg_ipset args.

(** What is printed and run for a violation whose window starts at index
    [i] of the sorted timeline [t]. *)
Definition violation_effects (os : list str -> run_result) (args : arguments)
           (W removeafter : Z) (ip : str) (version : Z) (t : list Z) (i : nat)
  : list effect :=
  Print (MsgViolation ip version)
  :: Print (MsgDetails (window_hits W t i) (nth i t 0) (nth i t 0 + W))
  :: add_to_ipset os (target_ipset args version) ip removeafter (arg_dryrun args).

(** ** Further observations, for the properties of the whole program *)

(** [ip_timestamps.keys()] *)
Definition keys (idx : index) : list str := map fst idx.

(** [ip_timestamps.get(ip)] *)
Fixpoint index_get (idx : index) (ip : str) : option (list Z) :=
  match idx with
  | [] => None
  | (k, ts) :: idx' => if str_eqb k ip then Some ts else index_get idx' ip
  end.

(** The times of the events of [ip] in a log, in the order of the lines. *)
Definition events_of (now_year : Z) (args : arguments) (ip : str)
           (lines : list str) : list Z :=
  flat_map (fun line => match extract now_year args line with
                        | Event ip' t => if str_eqb ip' ip then [t] else []
                        | _ => []
                        end) lines.

(** Lines that give an event. *)
Definition is_event (o : line_outcome) : bool :=
  match o with
  | Event _ _ => true
  | _ => false
  end.

(** The commands handed to [subprocess.run], in order. *)
Definition run_commands (out : list effect) : list (list str) :=
  flat_map (fun e => match e with Run c => [c] | _ => [] end) out.

(** The command line of [add_to_ipset]. *)
Definition ipset_command (ipset_name ip : str) (timeout_seconds : Z) : list str :=
  [$"ipset"; $"add"; ipset_name; ip; $"timeout"; py_str timeout_seconds; $"-exist"].

(** What does not depend on the answers of [subprocess.run]: everything
    but the two lines that report a failed command. *)
Definition is_sink_failure (e : effect) : bool :=
  match e with
  | Print (MsgIpsetFailed _ _ _) | Print MsgIpsetMissing => true
  | _ => false
  end.

(** The summary is printed when no exception ended the second phase. *)
Definition summary_of (st : reader) (triggered : list str)
           (raised : option exception) : list effect :=
  match raised with
  | Some _ => []
  | None => [Print (MsgSummary (total_lines st) (matched_lines st)
                               (len (ip_timestamps st)) (len triggered))]
  end.

(** Every window that starts at a timestamp of [ts] ends inside the range
    of [datetime]. *)
Definition windows_fit (W : Z) (ts : list Z) : bool :=
  forallb (fun t => is_datetime (t + W)) ts.


(** The start indices of [0 .. m-1] whose window reaches the threshold. *)
Definition qualifying (K W : Z) (t : list Z) (m : nat) : list nat :=
  filter (fun i => K <=? window_hits W t i) (seq 0 m).

(** The dictionary invariant: no key twice, no empty timeline. *)
Definition index_ok (idx : index) : Prop :=
  NoDup (keys idx) /\ Forall (fun kv => snd kv <> []) idx.

(** [ip_timestamps.get(ip, [])] *)
Definition timeline (idx : index) (ip : str) : list Z :=
  match index_get idx ip with
  | Some ts => ts
  | None => []
  end.

(** The lines of a log that give an event. *)
Definition count_events (now_year : Z) (args : arguments) (lines : list str) : Z :=
  len (filter (fun l => is_event (extract now_year args l)) lines).

Definition is_broke (e : loop_end) : bool :=
  match e with
  | Broke => true
  | _ => false
  end.

(** The command [add_to_ipset] runs for a triggered address. *)
Definition command_for (args : arguments) (removeafter : Z) (ip : str) : list str :=
  ipset_command
    (target_ipset args (match ip_address ip with Some v => v | None => 0 end))
    ip removeafter.

(** The lines [main] prints outside the analysis of the addresses. *)
Definition is_report (e : effect) : bool :=
  match e with
  | Print MsgDurationError | Print MsgLogNotFound
  | Print (MsgFinishedReading _) | Print (MsgSummary _ _ _ _) => true
  | _ => false
  end.

(** Everything but the report of a failed [ipset] command. *)
Definition not_sink_failure (e : effect) : bool := negb (is_sink_failure e).

(** The characters of a decimal numeral of the standard library, as
    [str()] writes them. *)
Definition uint_chars (d : Decimal.uint) : str :=
  list_ascii_of_string (DecimalString.NilEmpty.string_of_uint d).

(** The value of a run of digits read from the left, starting from [acc]. *)
Definition digits_value (acc : Z) (digits : str) : Z :=
  fold_left (fun a c => 10 * a + digit_val c) digits acc.

(* ================================================================= *)
(** * Part II.  Properties *)
(* ================================================================= *)

(** ** Lists, ranges and indexing *)

Lemma len_nonneg {A} (l : list A) : 0 <= len l.
Proof. unfold len. lia. Qed.

Lemma len_cons {A} (x : A) (l : list A) : len (x :: l) = 1 + len l.
Proof. unfold len. simpl List.length. lia. Qed.

Lemma len_app {A} (l1 l2 : list A) : len (l1 ++ l2) = len l1 + len l2.
Proof. unfold len. rewrite length_app. lia. Qed.

Lemma getitem_nat {A} (l : list A) (i : nat) :
  getitem l (Z.of_nat i) = nth_error l i.
Proof.
  unfold getitem.
  destruct (Z.of_nat i <? 0) eqn:E.
  - apply Z.ltb_lt in E. lia.
  - now rewrite Nat2Z.id.
Qed.

Lemma range2_shift (m s : nat) (a : Z) :
  0 <= a ->
  map (fun k => a + Z.of_nat k) (seq s m) = map Z.of_nat (seq (Z.to_nat a + s) m).
Proof.
  intros Ha. revert s.
  induction m as [|m IH]; intros s; simpl; [reflexivity|].
  f_equal; [lia|].
  rewrite IH. now rewrite Nat.add_succ_r.
Qed.

Lemma range2_nat (a b : Z) :
  0 <= a ->
  range2 a b = map Z.of_nat (seq (Z.to_nat a) (Z.to_nat (b - a))).
Proof.
  intros Ha. unfold range2.
  rewrite range2_shift by assumption.
  now rewrite Nat.add_0_r.
Qed.

Lemma range_nat (n : Z) : range n = map Z.of_nat (seq 0 (Z.to_nat n)).
Proof.
  unfold range. rewrite range2_nat by lia.
  now rewrite Z.sub_0_r.
Qed.

Lemma skipn_nth_error {A} (l : list A) (i : nat) :
  (i < List.length l)%nat ->
  exists x, nth_error l i = Some x /\ skipn i l = x :: skipn (S i) l.
Proof.
  revert i. induction l as [|y l IH]; intros i Hi; simpl in Hi; [lia|].
  destruct i as [|i].
  - exists y. split; reflexivity.
  - destruct (IH i) as [x [H1 H2]]; [lia|].
    exists x. split; [exact H1|]. simpl. exact H2.
Qed.

(** ** [sort] *)

Lemma insert_sorted_perm (x : Z) (l : list Z) :
  Permutation (x :: l) (insert_sorted x l).
Proof.
  induction l as [|y l IH]; simpl; [reflexivity|].
  destruct (x <=? y); [reflexivity|].
  rewrite perm_swap. now constructor.
Qed.

Lemma sort_perm (l : list Z) : Permutation l (sort l).
Proof.
  induction l as [|x l IH]; simpl; [constructor|].
  rewrite <- insert_sorted_perm. now constructor.
Qed.

Lemma insert_sorted_sorted (x : Z) (l : list Z) :
  StronglySorted Z.le l -> StronglySorted Z.le (insert_sorted x l).
Proof.
  induction 1 as [|y l Hs IH Hall]; simpl.
  - repeat constructor.
  - destruct (x <=? y) eqn:E.
    + apply Z.leb_le in E.
      constructor; [now constructor|].
      constructor; [exact E|].
      eapply Forall_impl; [|exact Hall]. intros; lia.
    + apply Z.leb_gt in E.
      constructor; [exact IH|].
      eapply Permutation_Forall; [apply insert_sorted_perm|].
      constructor; [lia|exact Hall].
Qed.

Lemma sort_sorted (l : list Z) : StronglySorted Z.le (sort l).
Proof.
  induction l as [|x l IH]; simpl; [constructor|].
  now apply insert_sorted_sorted.
Qed.

Lemma sort_length (l : list Z) : List.length (sort l) = List.length l.
Proof. symmetry. apply Permutation_length, sort_perm. Qed.

Lemma sort_len (l : list Z) : len (sort l) = len l.
Proof. unfold len. now rewrite sort_length. Qed.

(** Two sorted lists with the same elements are the same list. *)
Lemma sorted_perm_eq (l1 l2 : list Z) :
  StronglySorted Z.le l1 -> StronglySorted Z.le l2 ->
  Permutation l1 l2 -> l1 = l2.
Proof.
  intros H1. revert l2.
  induction H1 as [|x l1 Hs1 IH Hall1]; intros l2 H2 Hp.
  - apply Permutation_nil in Hp. now subst.
  - destruct H2 as [|y l2 Hs2 Hall2].
    + apply Permutation_sym, Permutation_nil in Hp. discriminate.
    + assert (x = y) as ->.
      { assert (In x (y :: l2)) as Hx
            by (eapply Permutation_in; [exact Hp|now left]).
        assert (In y (x :: l1)) as Hy
            by (eapply Permutation_in; [apply Permutation_sym; exact Hp|now left]).
        rewrite Forall_forall in Hall1, Hall2.
        destruct Hx as [Hx|Hx]; [congruence|].
        destruct Hy as [Hy|Hy]; [congruence|].
        apply Hall2 in Hx. apply Hall1 in Hy. lia. }
      f_equal. apply IH; [exact Hs2|].
      eapply Permutation_cons_inv; exact Hp.
Qed.

Lemma sort_permutation_invariant (l1 l2 : list Z) :
  Permutation l1 l2 -> sort l1 = sort l2.
Proof.
  intros Hp.
  apply sorted_perm_eq; try apply sort_sorted.
  rewrite <- (sort_perm l1), <- (sort_perm l2). exact Hp.
Qed.

(** ** The hit count of a window *)

Lemma count_hits_seq (t : list Z) (window_end : Z) (m s : nat) :
  (s + m = List.length t)%nat ->
  count_hits t window_end (map Z.of_nat (seq s m))
  = Some (len (filter (fun tj => tj <=? window_end) (skipn s t))).
Proof.
  revert s. induction m as [|m IH]; intros s Hs.
  - simpl. rewrite skipn_all2 by lia. reflexivity.
  - destruct (skipn_nth_error t s) as [x [Hx Hsk]]; [lia|].
    simpl. rewrite getitem_nat, Hx, IH by lia.
    rewrite Hsk. simpl.
    destruct (x <=? window_end); [rewrite len_cons|]; reflexivity.
Qed.

Lemma count_hits_window (t : list Z) (W : Z) (i : nat) (ti : Z) :
  nth_error t i = Some ti ->
  count_hits t (ti + W) (range2 (Z.of_nat i + 1) (len t))
  = Some (window_hits W t i - 1).
Proof.
  intros Hi.
  assert (i < List.length t)%nat as Hlt
      by (apply nth_error_Some; congruence).
  rewrite range2_nat by lia.
  replace (Z.to_nat (Z.of_nat i + 1)) with (S i) by lia.
  rewrite count_hits_seq by (unfold len; lia).
  unfold window_hits.
  rewrite (nth_error_nth _ _ 0 Hi).
  f_equal. lia.
Qed.

Lemma count_of_cons (p : effect -> bool) (e : effect) (out : list effect) :
  count_of p (e :: out) = (if p e then 1 else 0) + count_of p out.
Proof.
  unfold count_of. cbn [filter].
  destruct (p e); [apply len_cons|reflexivity].
Qed.

Lemma count_of_app (p : effect -> bool) (out1 out2 : list effect) :
  count_of p (out1 ++ out2) = count_of p out1 + count_of p out2.
Proof. unfold count_of. now rewrite filter_app, len_app. Qed.

(** ** The loop over the window starts *)

Section ScanFacts.
Variable os : list str -> run_result.
Variable args : arguments.
Variables W removeafter : Z.

Let scan := scan_windows os args W removeafter.

(** One turn of the loop at an index inside the list: the end of the
    window is computed first, and [OverflowError] ends the loop. *)
Lemma scan_turn (ip : str) (t : list Z) (i : nat) (starts : list Z) :
  (i < List.length t)%nat ->
  scan ip t (Z.of_nat i :: starts)
  = if is_datetime (nth i t 0 + W)
    then if arg_howmany args <=? window_hits W t i
         then match ip_address ip with
              | None => let (out, e) := scan ip t starts in
                        (Print (MsgWarning ip) :: out, e)
              | Some version =>
                  (violation_effects os args W removeafter ip version t i, Broke)
              end
         else scan ip t starts
    else ([], Overflowed).
Proof.
  intros Hi.
  destruct (nth_error t i) as [ti|] eqn:Hti;
    [|apply nth_error_None in Hti; lia].
  unfold scan. cbn [scan_windows].
  rewrite getitem_nat, Hti. unfold datetime_add.
  rewrite (nth_error_nth _ _ 0 Hti).
  destruct (is_datetime (ti + W)); [|reflexivity].
  rewrite (count_hits_window _ _ _ _ Hti).
  replace (1 + (window_hits W t i - 1)) with (window_hits W t i) by lia.
  unfold violation_effects, target_ipset.
  rewrite (nth_error_nth _ _ 0 Hti).
  reflexivity.
Qed.

(** The same turn when the end of the window is a [datetime]. *)
Lemma scan_step (ip : str) (t : list Z) (i : nat) (starts : list Z) :
  (i < List.length t)%nat ->
  is_datetime (nth i t 0 + W) = true ->
  scan ip t (Z.of_nat i :: starts)
  = if arg_howmany args <=? window_hits W t i
    then match ip_address ip with
         | None => let (out, e) := scan ip t starts in
                   (Print (MsgWarning ip) :: out, e)
         | Some version =>
             (violation_effects os args W removeafter ip version t i, Broke)
         end
    else scan ip t starts.
Proof. intros Hi Hfit. now rewrite scan_turn, Hfit. Qed.


(** One turn of the loop at an index past the end: [IndexError]. *)
Lemma scan_step_out (ip : str) (t : list Z) (i : nat) (starts : list Z) :
  (List.length t <= i)%nat ->
  scan ip t (Z.of_nat i :: starts) = ([], Raised).
Proof.
  intros Hi. unfold scan. cbn [scan_windows].
  rewrite getitem_nat.
  assert (nth_error t i = None) as -> by now apply nth_error_None.
  reflexivity.
Qed.

Lemma add_to_ipset_counts (name ip : str) (r : Z) (d : bool) :
  count_of is_violation (add_to_ipset os name ip r d) = 0
  /\ count_of is_sink_call (add_to_ipset os name ip r d) = 1
  /\ count_of is_run (add_to_ipset os name ip r d) = (if d then 0 else 1).
Proof.
  unfold add_to_ipset.
  destruct d; [repeat split|].
  destruct (os _); repeat split.
Qed.

(** The loop reports at most one violation and calls the sink at most
    once, whatever indices it visits. *)
Lemma scan_at_most_one (ip : str) (t : list Z) (starts : list Z) :
  count_of is_violation (fst (scan ip t starts)) <= 1
  /\ count_of is_sink_call (fst (scan ip t starts)) <= 1
  /\ count_of is_run (fst (scan ip t starts)) <= 1.
Proof.
  induction starts as [|i starts IH]; [repeat split; discriminate|].
  unfold scan in *. cbn [scan_windows].
  destruct (getitem t i) as [ti|]; [|repeat split; discriminate].
  destruct (datetime_add ti W) as [we|]; [|repeat split; discriminate].
  destruct (count_hits _ _ _) as [c|]; [|repeat split; discriminate].
  destruct (arg_howmany args <=? 1 + c); [|exact IH].
  destruct (ip_address ip) as [v|].
  - cbn [fst].
    match goal with
    | |- context [add_to_ipset os ?n ?a ?r ?d] =>
        destruct (add_to_ipset_counts n a r d) as [H1 [H2 H3]]
    end.
    rewrite !count_of_cons, H1, H2, H3. cbn [is_violation is_sink_call is_run].
    destruct (arg_dryrun args); lia.
  - destruct (scan_windows os args W removeafter ip t starts) as [out e].
    cbn [fst] in *. exact IH.
Qed.

(** With an address [ip_address] refuses, the loop only warns. *)
Lemma scan_invalid_address (ip : str) (t : list Z) (starts : list Z) :
  ip_address ip = None ->
  Forall (fun e => e = Print (MsgWarning ip)) (fst (scan ip t starts))
  /\ snd (scan ip t starts) <> Broke.
Proof.
  intros Hip.
  induction starts as [|i starts IH]; [split; [constructor|discriminate]|].
  unfold scan in *. cbn [scan_windows].
  destruct (getitem t i) as [ti|]; [|split; [constructor|discriminate]].
  destruct (datetime_add ti W) as [we|]; [|split; [constructor|discriminate]].
  destruct (count_hits _ _ _) as [c|]; [|split; [constructor|discriminate]].
  destruct (arg_howmany args <=? 1 + c); [|exact IH].
  rewrite Hip.
  destruct (scan_windows os args W removeafter ip t starts) as [out e].
  cbn [fst snd] in *. destruct IH as [IH1 IH2].
  split; [now constructor|exact IH2].
Qed.


(** The loop never runs past the end of the list when its indices do
    not. *)
Lemma scan_in_bounds (ip : str) (t : list Z) (m s : nat) :
  (s + m <= List.length t)%nat ->
  snd (scan ip t (map Z.of_nat (seq s m))) <> Raised.
Proof.
  revert s. induction m as [|m IH]; intros s Hs; [discriminate|].
  cbn [map seq]. rewrite scan_turn by lia.
  destruct (is_datetime (nth s t 0 + W)); [|discriminate].
  destruct (arg_howmany args <=? window_hits W t s); [|apply IH; lia].
  destruct (ip_address ip); [discriminate|].
  specialize (IH (S s)).
  destruct (scan ip t (map Z.of_nat (seq (S s) m))) as [out e].
  cbn [snd] in *. apply IH. lia.
Qed.

Lemma add_to_ipset_no_details (name ip : str) (r : Z) (d : bool) (m : message) :
  In (Print m) (add_to_ipset os name ip r d) ->
  match m with
  | MsgDetails _ _ _ | MsgViolation _ _ | MsgWarning _ => False
  | _ => True
  end.
Proof.
  unfold add_to_ipset. destruct d.
  - intros [H|[]]. now inversion H.
  - destruct (os _); cbn [In]; intros H;
      repeat (destruct H as [H|H]; [now inversion H|]); destruct H.
Qed.

(** Either the loop stopped at a violation, and printed and ran exactly
    what belongs to it, or it only warned. *)
Lemma scan_shape (ip : str) (t : list Z) (starts : list Z) :
  (snd (scan ip t starts) = Broke
   /\ exists v h ws we,
       ip_address ip = Some v
       /\ fst (scan ip t starts)
          = Print (MsgViolation ip v) :: Print (MsgDetails h ws we)
            :: add_to_ipset os (target_ipset args v) ip removeafter
                            (arg_dryrun args))
  \/ (snd (scan ip t starts) <> Broke
      /\ Forall (fun e => e = Print (MsgWarning ip)) (fst (scan ip t starts))).
Proof.
  induction starts as [|i starts IH]; [right; split; [discriminate|constructor]|].
  unfold scan in *. cbn [scan_windows].
  destruct (getitem t i) as [ti|]; [|right; split; [discriminate|constructor]].
  destruct (datetime_add ti W) as [we0|];
    [|right; split; [discriminate|constructor]].
  destruct (count_hits _ _ _) as [c|]; [|right; split; [discriminate|constructor]].
  destruct (arg_howmany args <=? 1 + c); [|exact IH].
  destruct (ip_address ip) as [v|] eqn:Hip.
  - left. split; [reflexivity|].
    exists v, (1 + c), ti, we0. split; reflexivity.
  - destruct (scan_windows os args W removeafter ip t starts) as [out e].
    cbn [fst snd] in *.
    destruct IH as [[_ [v [h [ws [we [Hv _]]]]]]|[H1 H2]]; [discriminate|].
    right. split; [exact H1|now constructor].
Qed.

(** The violation the loop reports is the one of the first index, in the
    order of the visit, whose window reaches the threshold. *)
Lemma scan_details (ip : str) (t : list Z) (m s : nat) (h ws we : Z) :
  In (Print (MsgDetails h ws we)) (fst (scan ip t (map Z.of_nat (seq s m)))) ->
  exists i,
    (s <= i < s + m)%nat
    /\ nth_error t i = Some ws
    /\ we = ws + W
    /\ h = window_hits W t i
    /\ arg_howmany args <= h
    /\ (forall i', (s <= i' < i)%nat -> window_hits W t i' < arg_howmany args)
    /\ ip_address ip <> None
    /\ (forall i', (s <= i' <= i)%nat -> is_datetime (nth i' t 0 + W) = true).
Proof.
  revert s. induction m as [|m IH]; intros s Hin; [destruct Hin|].
  cbn [map seq] in Hin.
  destruct (Nat.lt_ge_cases s (List.length t)) as [Hs|Hs];
    [|rewrite scan_step_out in Hin by exact Hs; destruct Hin].
  rewrite scan_turn in Hin by exact Hs.
  destruct (is_datetime (nth s t 0 + W)) eqn:Hfit; [|destruct Hin].
  destruct (arg_howmany args <=? window_hits W t s) eqn:Hq.
  - apply Z.leb_le in Hq.
    destruct (ip_address ip) as [v|] eqn:Hip.
    + cbn [fst violation_effects In] in Hin.
      destruct Hin as [Hin|[Hin|Hin]]; [discriminate| |].
      * inversion Hin; subst. exists s.
        destruct (nth_error t s) as [x|] eqn:Hx;
          [|apply nth_error_None in Hx; lia].
        rewrite (nth_error_nth _ _ 0 Hx) in *.
        split; [lia|]. split; [reflexivity|]. split; [reflexivity|].
        split; [reflexivity|]. split; [exact Hq|]. split; [intros; lia|].
        split; [discriminate|].
        intros i' Hi'. assert (i' = s) as -> by lia.
        now rewrite (nth_error_nth _ _ 0 Hx).
      * apply add_to_ipset_no_details in Hin. destruct Hin.
    + destruct (scan ip t (map Z.of_nat (seq (S s) m))) as [out e] eqn:Hrest.
      cbn [fst In] in Hin. destruct Hin as [Hin|Hin]; [discriminate|].
      specialize (IH (S s)). rewrite Hrest in IH.
      destruct (IH Hin) as [i Hi]. exfalso. now apply Hi.
  - apply Z.leb_gt in Hq.
    destruct (IH (S s) Hin) as [i [Hr [H1 [H2 [H3 [H4 [H5 [H6 H7]]]]]]]].
    exists i.
    split; [lia|]. split; [exact H1|]. split; [exact H2|]. split; [exact H3|].
    split; [exact H4|]. split; [|split; [exact H6|]].
    + intros i' Hi'. destruct (Nat.eq_dec i' s) as [->|Hne]; [exact Hq|].
      apply H5. lia.
    + intros i' Hi'. destruct (Nat.eq_dec i' s) as [->|Hne]; [exact Hfit|].
      apply H7. lia.
Qed.

(** With a valid address, a window that reaches the threshold at an index
    the loop can reach makes the loop report a violation. *)
Lemma scan_finds (ip : str) (v : Z) (t : list Z) (m s i : nat) :
  ip_address ip = Some v ->
  (s <= i < s + m)%nat -> (i < List.length t)%nat ->
  arg_howmany args <= window_hits W t i ->
  (forall i', (s <= i' <= i)%nat -> is_datetime (nth i' t 0 + W) = true) ->
  reports_violation (scan ip t (map Z.of_nat (seq s m))).
Proof.
  intros Hip. revert s.
  induction m as [|m IH]; intros s Hi Hlen Hq Hfit; [lia|].
  cbn [map seq]. rewrite scan_step by (try apply Hfit; lia).
  destruct (arg_howmany args <=? window_hits W t s) eqn:Hs.
  - rewrite Hip. reflexivity.
  - apply Z.leb_gt in Hs.
    assert (i <> s) by (intros ->; lia).
    apply IH; [lia|assumption|assumption|].
    intros i' Hi'. apply Hfit. lia.
Qed.
End ScanFacts.

(** ** The analysis of one address *)

Lemma in_range2 (a b j : Z) : In j (range2 a b) <-> a <= j < b.
Proof.
  unfold range2. rewrite in_map_iff. split.
  - intros [k [<- Hk]]. apply in_seq in Hk. lia.
  - intros Hj. exists (Z.to_nat (j - a)). split; [lia|].
    apply in_seq. lia.
Qed.

Lemma in_range1 (n i : Z) : In i (range n) <-> 0 <= i < n.
Proof. apply in_range2. Qed.

Lemma ip_address_version (ip : str) (v : Z) :
  ip_address ip = Some v -> v = 4 \/ v = 6.
Proof.
  unfold ip_address.
  destruct (ipv4_valid ip); [intros [= <-]; now left|].
  destruct (ipv6_valid ip); [intros [= <-]; now right|discriminate].
Qed.

(** The windows of a timeline fit whatever the order of its events. *)
Lemma windows_fit_sort (W : Z) (ts : list Z) (i : nat) :
  windows_fit W ts = true -> (i < List.length ts)%nat ->
  is_datetime (nth i (sort ts) 0 + W) = true.
Proof.
  intros Hfit Hi. unfold windows_fit in Hfit. rewrite forallb_forall in Hfit.
  apply Hfit. apply (Permutation_in _ (Permutation_sym (sort_perm ts))).
  apply nth_In. now rewrite sort_length.
Qed.


Section AnalyzeFacts.
Variable os : list str -> run_result.
Variable args : arguments.
Variables W removeafter : Z.

Let K := arg_howmany args.
Let analyze1 := analyze_ip os args W removeafter.

(** The analysis is the loop over the first [len - K + 1] indices of the
    sorted timeline, or nothing at all for a short timeline. *)
Lemma analyze_ip_unfold (ip : str) (ts : list Z) :
  analyze1 ip ts
  = if len ts <? K then ([], Exhausted)
    else scan_windows os args W removeafter ip (sort ts)
           (map Z.of_nat (seq 0 (Z.to_nat (len ts - K + 1)))).
Proof.
  unfold analyze1, analyze_ip, K.
  destruct (len ts <? arg_howmany args); [reflexivity|].
  now rewrite range_nat, sort_len.
Qed.


Lemma analyze_ip_shape (ip : str) (ts : list Z) :
  (snd (analyze1 ip ts) = Broke
   /\ exists v h ws we,
       ip_address ip = Some v
       /\ fst (analyze1 ip ts)
          = Print (MsgViolation ip v) :: Print (MsgDetails h ws we)
            :: add_to_ipset os (target_ipset args v) ip removeafter
                            (arg_dryrun args))
  \/ (snd (analyze1 ip ts) <> Broke
      /\ Forall (fun e => e = Print (MsgWarning ip)) (fst (analyze1 ip ts))).
Proof.
  rewrite analyze_ip_unfold.
  destruct (len ts <? K); [right; split; [discriminate|constructor]|].
  apply scan_shape.
Qed.

Lemma warnings_no_violation (ip : str) (out : list effect) :
  Forall (fun e => e = Print (MsgWarning ip)) out ->
  existsb is_violation out = false
  /\ count_of is_violation out = 0
  /\ count_of is_sink_call out = 0
  /\ count_of is_run out = 0.
Proof.
  induction 1 as [|e out He _ IH]; [repeat split|].
  subst e. rewrite !count_of_cons. cbn [existsb is_violation is_sink_call is_run].
  destruct IH as [-> [-> [-> ->]]]. repeat split.
Qed.

(** A reported violation is the window of the lowest start index that
    reaches the threshold. *)
Lemma analyze_ip_reports (ip : str) (ts : list Z) :
  reports_violation (analyze1 ip ts) ->
  exists v i,
    ip_address ip = Some v
    /\ (i < List.length ts)%nat
    /\ Z.of_nat i < len ts - K + 1
    /\ K <= len ts
    /\ fst (analyze1 ip ts)
       = violation_effects os args W removeafter ip v (sort ts) i
    /\ K <= window_hits W (sort ts) i
    /\ (forall i', (i' < i)%nat -> window_hits W (sort ts) i' < K)
    /\ (forall i', (i' <= i)%nat -> is_datetime (nth i' (sort ts) 0 + W) = true).
Proof.
  unfold reports_violation. intros Hrep.
  destruct (analyze_ip_shape ip ts)
    as [[_ [v [h [ws [we [Hv Hout]]]]]]|[_ Hw]];
    [|apply warnings_no_violation in Hw; destruct Hw as [Hw _]; congruence].
  assert (In (Print (MsgDetails h ws we)) (fst (analyze1 ip ts))) as Hin
      by (rewrite Hout; right; now left).
  rewrite analyze_ip_unfold in Hin.
  destruct (len ts <? K) eqn:Hlen; [destruct Hin|].
  apply Z.ltb_ge in Hlen.
  apply scan_details in Hin.
  destruct Hin as [i [Hr [H1 [H2 [H3 [H4 [H5 [_ H7]]]]]]]].
  assert (i < List.length (sort ts))%nat as Hi
      by (apply nth_error_Some; congruence).
  rewrite sort_length in Hi.
  exists v, i.
  split; [exact Hv|]. split; [exact Hi|]. split; [lia|]. split; [exact Hlen|].
  split.
  { rewrite Hout. unfold violation_effects.
    rewrite (nth_error_nth _ _ 0 H1). now subst. }
  split; [subst h; exact H4|].
  split.
  - intros i' Hi'. apply H5. lia.
  - intros i' Hi'. apply H7. lia.
Qed.

(** With a valid address, a window that reaches the threshold at an index
    of the range makes the analysis report a violation. *)
Lemma analyze_ip_finds (ip : str) (v : Z) (ts : list Z) (i : nat) :
  ip_address ip = Some v ->
  K <= len ts ->
  (i < List.length ts)%nat ->
  Z.of_nat i < len ts - K + 1 ->
  K <= window_hits W (sort ts) i ->
  (forall i', (i' <= i)%nat -> is_datetime (nth i' (sort ts) 0 + W) = true) ->
  reports_violation (analyze1 ip ts).
Proof.
  intros Hip Hlen Hi Hr Hq Hfit. rewrite analyze_ip_unfold.
  replace (len ts <? K) with false by (symmetry; apply Z.ltb_ge; lia).
  apply (scan_finds os args W removeafter ip v (sort ts) _ 0%nat i Hip);
    [lia|now rewrite sort_length|exact Hq|].
  intros i' Hi'. apply Hfit. lia.
Qed.

Lemma analyze_ip_no_raise (ip : str) (ts : list Z) :
  0 < K -> snd (analyze1 ip ts) <> Raised.
Proof.
  intros HK. rewrite analyze_ip_unfold.
  destruct (len ts <? K) eqn:Hlen; [discriminate|].
  apply Z.ltb_ge in Hlen.
  apply scan_in_bounds. rewrite sort_length. unfold len in *. lia.
Qed.

Lemma analyze_no_raise (items : index) :
  0 < K -> snd (analyze os args W removeafter items) <> Some IndexError.
Proof.
  intros HK. induction items as [|[ip ts] items IH]; [discriminate|].
  cbn [analyze].
  pose proof (analyze_ip_no_raise ip ts HK) as Hnr. unfold analyze1 in Hnr.
  destruct (analyze_ip os args W removeafter ip ts) as [out e].
  destruct (analyze os args W removeafter items) as [[out' tr] raised].
  cbn [snd] in *. destruct e; [exact IH|exact IH|congruence|discriminate].
Qed.
End AnalyzeFacts.

(** ** The Window Scanner: claims *)



(** C2.  For every address and timeline, one scan reports at most one
    violation and calls the sink at most once; a reported violation is the
    window of the lowest start index of the sorted timeline whose hit count
    reaches the threshold: no earlier start qualifies. *)
Theorem C2_first_qualifying_window_only
        (os : list str -> run_result) (args : arguments) (W removeafter : Z)
        (ip : str) (ts : list Z) :
  let r := analyze_ip os args W removeafter ip ts in
  count_of is_violation (fst r) <= 1
  /\ count_of is_sink_call (fst r) <= 1
  /\ count_of is_run (fst r) <= 1
  /\ (reports_violation r ->
      exists v i,
        ip_address ip = Some v
        /\ fst r = violation_effects os args W removeafter ip v (sort ts) i
        /\ (i < List.length ts)%nat
        /\ arg_howmany args <= window_hits W (sort ts) i
        /\ forall i', (i' < i)%nat ->
                      window_hits W (sort ts) i' < arg_howmany args).
Proof.
  intros r. subst r.
  assert (count_of is_violation (fst (analyze_ip os args W removeafter ip ts)) <= 1
          /\ count_of is_sink_call (fst (analyze_ip os args W removeafter ip ts)) <= 1
          /\ count_of is_run (fst (analyze_ip os args W removeafter ip ts)) <= 1)
    as [H1 [H2 H3]].
  { rewrite analyze_ip_unfold.
    destruct (len ts <? arg_howmany args); [repeat split; discriminate|].
    apply scan_at_most_one. }
  repeat (split; [assumption|]).
  intros Hrep. apply analyze_ip_reports in Hrep.
  destruct Hrep as [v [i [Hv [Hi [_ [_ [Hout [Hq [Hfirst _]]]]]]]]].
  exists v, i. repeat (split; [assumption|]). exact Hfirst.
Qed.

Lemma C2_first_qualifying_window_only_witness :
  exists v i,
    ip_address ($"203.0.113.7") = Some v
    /\ fst (analyze_ip (fun _ => RunOk)
                       (Args ($"blocked") ($"tcp") 2 ($"15s") ($"blacklist")
                             ($"3h") true)
                       15 10800 ($"203.0.113.7") [61; 0; 20; 50])
       = violation_effects (fun _ => RunOk)
                           (Args ($"blocked") ($"tcp") 2 ($"15s") ($"blacklist")
                                 ($"3h") true)
                           15 10800 ($"203.0.113.7") v (sort [61; 0; 20; 50]) i
    /\ (i < 4)%nat
    /\ 2 <= window_hits 15 (sort [61; 0; 20; 50]) i
    /\ forall i', (i' < i)%nat -> window_hits 15 (sort [61; 0; 20; 50]) i' < 2.
Proof.
  apply (proj2 (proj2 (proj2
           (C2_first_qualifying_window_only
              (fun _ => RunOk)
              (Args ($"blocked") ($"tcp") 2 ($"15s") ($"blacklist") ($"3h") true)
              15 10800 ($"203.0.113.7") [61; 0; 20; 50])))).
  reflexivity.
Defined.



(** C5.  For a fixed address, timeline and window, a violation for the
    threshold [K'] is a violation for every positive [K <= K'], and no
    violation for [K] means no violation for any [K' >= K]. *)
Theorem C5_antitone_in_threshold
        (os : list str -> run_result) (args : arguments) (W removeafter : Z)
        (ip : str) (ts : list Z) (K K' : Z) :
  K <= K' ->
  (0 < K ->
   reports_violation (analyze_ip os (with_howmany args K') W removeafter ip ts) ->
   reports_violation (analyze_ip os (with_howmany args K) W removeafter ip ts))
  /\ (~ reports_violation (analyze_ip os (with_howmany args K) W removeafter ip ts) ->
      ~ reports_violation (analyze_ip os (with_howmany args K') W removeafter ip ts)).
Proof.
  intros HK.
  assert (reports_violation (analyze_ip os (with_howmany args K') W removeafter ip ts) ->
          reports_violation (analyze_ip os (with_howmany args K) W removeafter ip ts))
    as Hmono.
  { intros Hrep. apply analyze_ip_reports in Hrep.
    destruct Hrep as [v [i [Hv [Hi [Hr [Hlen [_ [Hq [_ Hfit]]]]]]]]].
    cbn [with_howmany arg_howmany] in *.
    apply (analyze_ip_finds os (with_howmany args K) W removeafter ip v ts i Hv);
      cbn [with_howmany arg_howmany]; try lia. exact Hfit. }
  split; [intros _; exact Hmono|].
  intros Hno Hrep. apply Hno, Hmono, Hrep.
Qed.

Lemma C5_antitone_in_threshold_witness :
  reports_violation
    (analyze_ip (fun _ => RunOk)
                (with_howmany
                   (Args ($"blocked") ($"tcp") 0 ($"60s") ($"blacklist")
                         ($"3h") true) 2)
                60 10800 ($"203.0.113.7") [0; 10; 20; 61]).
Proof.
  apply (proj1 (C5_antitone_in_threshold
                  (fun _ => RunOk)
                  (Args ($"blocked") ($"tcp") 0 ($"60s") ($"blacklist")
                        ($"3h") true)
                  60 10800 ($"203.0.113.7") [0; 10; 20; 61] 2 3
                  ltac:(lia))).
  - lia.
  - reflexivity.
Defined.

(** C6.  The analysis of an address depends on the multiset of its
    timestamps only: any two orders of the same timestamps give the same
    effects and the same outcome, because the timeline is sorted before it
    is scanned. *)
Theorem C6_order_of_arrival_is_irrelevant
        (os : list str -> run_result) (args : arguments) (W removeafter : Z)
        (ip : str) (ts1 ts2 : list Z) :
  Permutation ts1 ts2 ->
  analyze_ip os args W removeafter ip ts1
  = analyze_ip os args W removeafter ip ts2.
Proof.
  intros Hp. unfold analyze_ip.
  rewrite (sort_permutation_invariant _ _ Hp).
  unfold len. now rewrite (Permutation_length Hp).
Qed.

Lemma C6_order_of_arrival_is_irrelevant_witness :
  analyze_ip (fun _ => RunOk)
             (Args ($"blocked") ($"tcp") 3 ($"60s") ($"blacklist") ($"3h") true)
             60 10800 ($"203.0.113.7") [61; 0; 20; 10]
  = analyze_ip (fun _ => RunOk)
               (Args ($"blocked") ($"tcp") 3 ($"60s") ($"blacklist") ($"3h") true)
               60 10800 ($"203.0.113.7") [0; 61; 20; 10].
Proof.
  apply C6_order_of_arrival_is_irrelevant.
  apply perm_swap.
Defined.



(** C9.  With a positive threshold every index the scanner uses is inside
    the timeline: the start indices are those of [0 .. n-K] and the inner
    count reads the indices [i+1 .. n-1] only, so no [IndexError] is raised,
    by the analysis of one address, by the whole second phase or by
    [main]. *)
Theorem C9_indices_in_bounds
        (os : list str -> run_result) (now_year : Z) (args : arguments)
        (W removeafter : Z) (ip : str) (ts : list Z) :
  0 < arg_howmany args ->
  (forall i, In i (range (len (sort ts) - arg_howmany args + 1)) ->
             0 <= i < len ts
             /\ getitem (sort ts) i <> None
             /\ forall j, In j (range2 (i + 1) (len (sort ts))) ->
                          i < j < len ts /\ getitem (sort ts) j <> None)
  /\ snd (analyze_ip os args W removeafter ip ts) <> Raised
  /\ (forall items, snd (analyze os args W removeafter items) <> Some IndexError)
  /\ (forall log, snd (main os now_year args log) <> Some IndexError).
Proof.
  intros HK.
  assert (forall k, 0 <= k < len ts -> getitem (sort ts) k <> None) as Hget.
  { intros k Hk. replace k with (Z.of_nat (Z.to_nat k)) by lia.
    rewrite getitem_nat. apply nth_error_Some.
    rewrite sort_length. unfold len in Hk. lia. }
  split; [|split; [|split]].
  - intros i Hi. apply in_range1 in Hi. rewrite sort_len in *.
    split; [lia|]. split; [apply Hget; lia|].
    intros j Hj. apply in_range2 in Hj.
    split; [lia|apply Hget; lia].
  - now apply analyze_ip_no_raise.
  - intros items. now apply analyze_no_raise.
  - intros log. unfold main.
    destruct (parse_duration_to_seconds (arg_within args)) as [ws|];
      [|discriminate].
    destruct (timedelta ws) as [wd|]; [|discriminate].
    destruct (parse_duration_to_seconds (arg_removeafter args)) as [rs|];
      [|discriminate].
    destruct log as [lines|]; [|discriminate].
    pose proof (analyze_no_raise os args wd rs
                  (ip_timestamps (read_log now_year args lines)) HK) as Hnr.
    destruct (analyze os args wd rs _) as [[out tr] raised].
    exact Hnr.
Qed.

Lemma C9_indices_in_bounds_witness :
  snd (analyze_ip (fun _ => RunOk)
                  (Args ($"blocked") ($"tcp") 1 ($"60s") ($"blacklist") ($"3h") true)
                  60 10800 ($"1.2.3") [0; 10; 20; 61]) <> Raised.
Proof.
  apply (C9_indices_in_bounds (fun _ => RunOk) 2025
           (Args ($"blocked") ($"tcp") 1 ($"60s") ($"blacklist") ($"3h") true)
           60 10800 ($"1.2.3") [0; 10; 20; 61]).
  reflexivity.
Defined.

(** ** The duration parser *)

Lemma getitem_last {A} (l : list A) (d : A) :
  l <> [] -> getitem l (-1) = Some (last l d).
Proof.
  intros Hl. destruct (exists_last Hl) as [l' [x ->]].
  rewrite last_last. unfold getitem. rewrite len_app, len_cons.
  change (-1 <? 0) with true. cbn [len List.length Z.of_nat].
  pose proof (len_nonneg l').
  replace (len l' + (1 + 0) + -1 <? 0) with false
    by (symmetry; apply Z.ltb_ge; lia).
  replace (Z.to_nat (len l' + (1 + 0) + -1)) with (List.length l')
    by (unfold len; lia).
  rewrite nth_error_app2 by lia. now rewrite Nat.sub_diag.
Qed.

Lemma last_map {A B} (f : A -> B) (l : list A) (d : A) (d' : B) :
  l <> [] -> last (map f l) d' = f (last l d).
Proof.
  induction l as [|x l IH]; [congruence|]. intros _.
  destruct l as [|y l]; [reflexivity|].
  change (last (map f (y :: l)) d' = f (last (y :: l) d)).
  apply IH. discriminate.
Qed.

Lemma removelast_map {A B} (f : A -> B) (l : list A) :
  removelast (map f l) = map f (removelast l).
Proof.
  induction l as [|x l IH]; [reflexivity|].
  destruct l as [|y l]; [reflexivity|].
  change (f x :: removelast (map f (y :: l)) = f x :: map f (removelast (y :: l))).
  now rewrite IH.
Qed.

Lemma multipliers_lower (u : ascii) (m : Z) :
  multipliers u = Some m -> lower_char u = u.
Proof.
  unfold multipliers.
  repeat (destruct (Ascii.eqb u _) eqn:E;
          [apply Ascii.eqb_eq in E; subst; reflexivity|clear E]).
  discriminate.
Qed.

Lemma digit_not_upper (c : ascii) : is_digit c = true -> lower_char c = c.
Proof.
  unfold is_digit, lower_char, in_range. intros H.
  apply andb_true_iff in H. destruct H as [H1 H2].
  apply Z.leb_le in H1, H2.
  replace (65 <=? code c) with false by (symmetry; apply Z.leb_gt; lia).
  reflexivity.
Qed.

Lemma digit_not_sign (c : ascii) :
  is_digit c = true -> Ascii.eqb c "+" = false /\ Ascii.eqb c "-" = false.
Proof.
  intros H. split; apply Ascii.eqb_neq; intros ->; discriminate H.
Qed.

Lemma lower_digits (ds : str) : forallb is_digit ds = true -> lower ds = ds.
Proof.
  induction ds as [|c ds IH]; [reflexivity|]. cbn [forallb lower map].
  intros H. apply andb_true_iff in H. destruct H as [Hc Hds].
  rewrite (digit_not_upper c Hc). f_equal. now apply IH.
Qed.

Lemma digit_not_int_space (c : ascii) :
  is_digit c = true -> is_int_space c = false.
Proof.
  unfold is_digit, is_int_space, in_range. intros H.
  apply andb_true_iff in H. destruct H as [H1 H2].
  apply Z.leb_le in H1, H2.
  replace (code c <=? 13) with false by (symmetry; apply Z.leb_gt; lia).
  replace (code c =? 32) with false by (symmetry; apply Z.eqb_neq; lia).
  now rewrite andb_false_r.
Qed.

Lemma int_lstrip_id (s : str) :
  is_int_space (hd "0"%char s) = false -> int_lstrip s = s.
Proof. destruct s as [|c s]; [reflexivity|]. cbn [hd int_lstrip]. now intros ->. Qed.

Lemma int_strip_id (s : str) :
  is_int_space (hd "0"%char s) = false ->
  is_int_space (last s "0"%char) = false ->
  int_strip s = s.
Proof.
  intros Hh Hl. unfold int_strip. rewrite (int_lstrip_id s Hh).
  rewrite int_lstrip_id; [apply rev_involutive|].
  destruct s as [|c s] using rev_ind; [reflexivity|].
  rewrite rev_app_distr. cbn [rev app hd].
  now rewrite last_last in Hl.
Qed.

Lemma int_digits_decimal (ds : str) (acc : Z) (b : bool) :
  forallb is_digit ds = true -> ds <> [] \/ b = true ->
  int_digits acc b ds
  = Some (fold_left (fun a c => 10 * a + digit_val c) ds acc).
Proof.
  revert acc b. induction ds as [|c ds IH]; intros acc b Hd Hne.
  - destruct Hne as [Hne| ->]; [congruence|reflexivity].
  - cbn [forallb] in Hd. apply andb_true_iff in Hd. destruct Hd as [Hc Hd].
    cbn [int_digits fold_left]. rewrite Hc. apply IH; [exact Hd|now right].
Qed.

Lemma forallb_last {A} (p : A -> bool) (l : list A) (d : A) :
  forallb p l = true -> l <> [] -> p (last l d) = true.
Proof.
  intros H Hne. rewrite forallb_forall in H. apply H.
  destruct (exists_last Hne) as [l' [x ->]].
  rewrite last_last. apply in_or_app. right. now left.
Qed.

(** A run of digits is a literal of [int()] up to the limit on their
    number, and refused beyond. *)
Lemma int_literal_decimal (ds : str) (v : Z) :
  decimal ds = Some v ->
  int_literal ds
  = if int_max_str_digits <? count_digits ds then None else Some v.
Proof.
  unfold decimal, int_literal. destruct ds as [|c ds]; [discriminate|].
  destruct (forallb is_digit (c :: ds)) eqn:Hd; [|discriminate].
  intros [= <-].
  destruct (int_max_str_digits <? count_digits (c :: ds)); [reflexivity|].
  rewrite int_digits_decimal; [reflexivity|exact Hd|left; discriminate].
Qed.

Lemma py_int_decimal (ds : str) (v : Z) :
  decimal ds = Some v ->
  py_int ds = if int_max_str_digits <? count_digits ds then None else Some v.
Proof.
  intros Hdec. pose proof (int_literal_decimal ds v Hdec) as Hlit.
  unfold decimal in Hdec. destruct ds as [|c ds]; [discriminate|].
  destruct (forallb is_digit (c :: ds)) eqn:Hd; [|discriminate].
  unfold py_int. rewrite int_strip_id.
  - cbn [forallb] in Hd. apply andb_true_iff in Hd. destruct Hd as [Hc Hd'].
    cbv beta iota.
    destruct (digit_not_sign c Hc) as [-> ->]. exact Hlit.
  - cbn [hd]. apply digit_not_int_space.
    cbn [forallb] in Hd. now apply andb_true_iff in Hd.
  - apply digit_not_int_space. apply forallb_last; [exact Hd|discriminate].
Qed.

(** An integer of the grammar of the specification is read by [int()] as
    it is written, up to the limit on the number of its digits. *)
Lemma py_int_spec_integer_limit (s : str) (v : Z) :
  spec_integer s = Some v ->
  py_int (lower s)
  = if int_max_str_digits <? count_digits s then None else Some v.
Proof.
  unfold spec_integer. destruct s as [|c r]; [discriminate|].
  destruct (Ascii.eqb c "-") eqn:Hc.
  - apply Ascii.eqb_eq in Hc. subst c.
    destruct (decimal r) as [n|] eqn:Hn; [|discriminate].
    intros [= <-].
    pose proof (int_literal_decimal r n Hn) as Hlit.
    assert (forallb is_digit r = true /\ r <> []) as [Hd Hne].
    { unfold decimal in Hn. destruct r; [discriminate|].
      destruct (forallb is_digit (a :: r)); [split; [reflexivity|discriminate]|discriminate]. }
    cbn [lower map]. change (map lower_char r) with (lower r).
    rewrite (lower_digits r Hd).
    change (lower_char "-") with "-"%char.
    change (count_digits ("-"%char :: r)) with (count_digits r).
    unfold py_int. rewrite int_strip_id.
    + cbv beta iota. change (Ascii.eqb "-" "+") with false.
      change (Ascii.eqb "-" "-") with true. cbv beta iota.
      rewrite Hlit.
      destruct (int_max_str_digits <? count_digits r); reflexivity.
    + reflexivity.
    + destruct r as [|a r]; [congruence|].
      change (last ("-"%char :: a :: r) "0"%char) with (last (a :: r) "0"%char).
      apply digit_not_int_space. apply forallb_last; [exact Hd|discriminate].
  - intros Hdec.
    assert (forallb is_digit (c :: r) = true) as Hd.
    { unfold decimal in Hdec.
      destruct (forallb is_digit (c :: r)); [reflexivity|discriminate]. }
    rewrite (lower_digits _ Hd). now apply py_int_decimal.
Qed.

Lemma py_int_spec_integer (s : str) (v : Z) :
  spec_integer s = Some v -> count_digits s <= int_max_str_digits ->
  py_int (lower s) = Some v.
Proof.
  intros Hs Hlim. rewrite (py_int_spec_integer_limit s v Hs).
  now replace (int_max_str_digits <? count_digits s) with false
    by (symmetry; apply Z.ltb_ge; lia).
Qed.

Lemma parse_duration_unfold (s : str) :
  s <> [] ->
  parse_duration_to_seconds s
  = match multipliers (lower_char (last s "0"%char)) with
    | None => inr InvalidFormat
    | Some m =>
        match py_int (lower (removelast s)) with
        | None => inr InvalidValue
        | Some value => inl (value * m)
        end
    end.
Proof.
  intros Hs. unfold parse_duration_to_seconds.
  assert (lower s <> []) as Hl by (destruct s; [congruence|discriminate]).
  rewrite (getitem_last _ "0"%char Hl).
  unfold lower at 1. rewrite (last_map _ _ "0"%char) by exact Hs.
  unfold lower. now rewrite removelast_map.
Qed.

(** C7, the claim as the specification words it, refuted: the unit of
    ["5M"] is not one of s, m, h, d, so the grammar of the specification
    rejects the string, yet the parser answers 300 seconds. *)
Lemma C7_upper_case_unit_is_accepted :
  multipliers (last ($"5M") "0"%char) = None
  /\ spec_duration ($"5M") = None
  /\ parse_duration_to_seconds ($"5M") = inl 300.
Proof. repeat split. Qed.

Lemma unit_not_digit (u : ascii) (m : Z) :
  multipliers u = Some m -> is_digit u = false.
Proof.
  unfold multipliers.
  repeat (destruct (Ascii.eqb u _) eqn:E;
          [apply Ascii.eqb_eq in E; subst; reflexivity|clear E]).
  discriminate.
Qed.

Lemma count_digits_unit (body : str) (u : ascii) (m : Z) :
  multipliers u = Some m -> count_digits (body ++ [u]) = count_digits body.
Proof.
  intros Hu. unfold count_digits. rewrite filter_app. cbn [filter].
  rewrite (unit_not_digit u m Hu). now rewrite app_nil_r.
Qed.

(** A duration of the grammar of the specification parses to its value
    when its magnitude has no more digits than [int()] reads, and is
    refused otherwise. *)
Lemma parse_duration_grammar (body : str) (u : ascii) (m v : Z) :
  multipliers u = Some m -> spec_integer body = Some v ->
  parse_duration_to_seconds (body ++ [u])
  = if int_max_str_digits <? count_digits body
    then inr InvalidValue else inl (v * m).
Proof.
  intros Hu Hv.
  rewrite parse_duration_unfold by (destruct body; discriminate).
  rewrite last_last, removelast_last.
  rewrite (multipliers_lower u m Hu), Hu.
  rewrite (py_int_spec_integer_limit body v Hv).
  now destruct (int_max_str_digits <? count_digits body).
Qed.

(** C7, amended.  A string of the grammar [<integer><unit>] with a unit
    among s, m, h, d parses to the magnitude times 1, 60, 3600 or 86400
    when the magnitude has at most 4300 digits, and is refused when it has
    more.  The parser lower-cases its argument first, so it fails exactly
    when the string is empty, when its last character is not one of s, m,
    h, d in either case, or when [int()] refuses what precedes it. *)
Theorem C7_duration_parser (s : str) :
  (forall v, spec_duration s = Some v ->
             count_digits s <= int_max_str_digits ->
             parse_duration_to_seconds s = inl v)
  /\ (forall body u m v,
         s = body ++ [u] -> multipliers u = Some m -> spec_integer body = Some v ->
         parse_duration_to_seconds s
         = if int_max_str_digits <? count_digits body
           then inr InvalidValue else inl (v * m))
  /\ (multipliers "s" = Some 1 /\ multipliers "m" = Some 60
      /\ multipliers "h" = Some 3600 /\ multipliers "d" = Some 86400)
  /\ ((exists e, parse_duration_to_seconds s = inr e)
      <-> s = []
          \/ multipliers (lower_char (last s "0"%char)) = None
          \/ py_int (lower (removelast s)) = None).
Proof.
  split; [|split; [|split; [repeat split|]]].
  - intros v. unfold spec_duration.
    destruct s as [|c s']; [discriminate|]. cbv beta iota.
    remember (c :: s') as s0 eqn:Hs0.
    destruct (multipliers (last s0 "0"%char)) as [m|] eqn:Hu; [|discriminate].
    destruct (spec_integer (removelast s0)) as [n|] eqn:Hn; [|discriminate].
    intros [= <-] Hlim.
    assert (s0 = removelast s0 ++ [last s0 "0"%char]) as Hs
        by (apply app_removelast_last; subst s0; discriminate).
    rewrite Hs in Hlim. rewrite (count_digits_unit _ _ _ Hu) in Hlim.
    rewrite Hs at 1. rewrite (parse_duration_grammar _ _ _ _ Hu Hn).
    now replace (int_max_str_digits <? count_digits (removelast s0)) with false
      by (symmetry; apply Z.ltb_ge; lia).
  - intros body u m v -> Hu Hv. now apply parse_duration_grammar.
  - destruct s as [|c s'] eqn:Hs.
    + split; [now left|]. intros _. now exists InvalidFormat.
    + rewrite <- Hs. rewrite parse_duration_unfold by (subst s; discriminate).
      destruct (multipliers (lower_char (last s "0"%char))) as [m|].
      * destruct (py_int (lower (removelast s))) as [n|].
        -- split; [intros [e He]; discriminate|].
           intros [H|[H|H]]; [subst s|idtac|idtac]; discriminate.
        -- split; [intros _; right; now right|]. intros _. now exists InvalidValue.
      * split; [intros _; right; now left|]. intros _. now exists InvalidFormat.
Qed.

Lemma C7_duration_parser_witness :
  parse_duration_to_seconds ($"30m") = inl 1800
  /\ parse_duration_to_seconds ($"-2h") = inl (-7200).
Proof.
  split.
  - apply (proj1 (C7_duration_parser ($"30m"))); [reflexivity|].
    vm_compute. discriminate.
  - apply (proj1 (proj2 (C7_duration_parser ($"-2h"))) ($"-2") "h"%char 3600 (-2));
      reflexivity.
Defined.

(** What [int()] accepts beyond the grammar of the specification. *)
Example duration_leniency :
  map (fun s => parse_duration_to_seconds (list_ascii_of_string s))
      ["1D"; " 5s"; "+5s"; "1_0s"; "5 s"; "1__0s"; "5"; "s"; ""; "1.5h"]%string
  = [inl 86400; inl 5; inl 5; inl 10; inl 5; inr InvalidValue;
     inr InvalidFormat; inr InvalidValue; inr InvalidFormat; inr InvalidValue].
Proof. reflexivity. Qed.

(** ** The reader *)

Lemma total_events_cons (k : str) (ts : list Z) (idx : index) :
  total_events ((k, ts) :: idx) = len ts + total_events idx.
Proof. reflexivity. Qed.

Lemma total_events_append (ip : str) (t : Z) (idx : index) :
  total_events (index_append ip t idx) = total_events idx + 1.
Proof.
  induction idx as [|[k ts] idx IH]; [reflexivity|].
  cbn [index_append]. destruct (str_eqb k ip).
  - rewrite !total_events_cons, len_app.
    change (len [t]) with 1. lia.
  - rewrite !total_events_cons, IH. lia.
Qed.

Lemma read_line_balance (now_year : Z) (args : arguments) (st : reader) (line : str) :
  matched_lines (read_line now_year args st line)
  - total_events (ip_timestamps (read_line now_year args st line))
  = matched_lines st - total_events (ip_timestamps st)
    + (if is_bad_timestamp (extract now_year args line) then 1 else 0).
Proof.
  unfold read_line.
  destruct (extract now_year args line);
    cbn [matched_lines ip_timestamps is_bad_timestamp];
    rewrite ?total_events_append; lia.
Qed.

Lemma read_fold_balance (now_year : Z) (args : arguments) (lines : list str)
      (st : reader) :
  matched_lines (fold_left (read_line now_year args) lines st)
  - total_events (ip_timestamps (fold_left (read_line now_year args) lines st))
  = matched_lines st - total_events (ip_timestamps st)
    + count_bad now_year args lines.
Proof.
  revert st. induction lines as [|l lines IH]; intros st.
  - cbn [fold_left]. unfold count_bad. cbn [filter len List.length Z.of_nat]. lia.
  - cbn [fold_left]. rewrite IH, read_line_balance.
    unfold count_bad. cbn [filter].
    destruct (is_bad_timestamp (extract now_year args l));
      [rewrite len_cons|]; lia.
Qed.

(** C10.  The matched-lines counter is incremented before the timestamp is
    parsed: a line that passes the pattern and the filter but whose
    timestamp [strptime] refuses is counted as matched and adds no event.
    So the matched count is the number of events plus the number of such
    lines: never below the number of events, and above it when such a line
    occurs. *)
Theorem C10_matched_counts_unparsed_timestamps
        (now_year : Z) (args : arguments) (lines : list str) :
  let st := read_log now_year args lines in
  (forall st0 line,
      extract now_year args line = BadTimestamp ->
      read_line now_year args st0 line
      = Reader (total_lines st0 + 1) (matched_lines st0 + 1) (ip_timestamps st0))
  /\ matched_lines st
     = total_events (ip_timestamps st) + count_bad now_year args lines
  /\ total_events (ip_timestamps st) <= matched_lines st
  /\ (forall line,
         In line lines -> extract now_year args line = BadTimestamp ->
         total_events (ip_timestamps st) < matched_lines st).
Proof.
  intros st. subst st.
  pose proof (read_fold_balance now_year args lines (Reader 0 0 [])) as Hb.
  fold (read_log now_year args lines) in Hb.
  cbn [matched_lines ip_timestamps total_events fold_right] in Hb.
  assert (0 <= count_bad now_year args lines) as Hnn by apply len_nonneg.
  split; [|split; [lia|split; [lia|]]].
  - intros st0 line Hbad. unfold read_line. now rewrite Hbad.
  - intros line Hin Hbad.
    assert (0 < count_bad now_year args lines); [|lia].
    unfold count_bad.
    assert (In line (filter (fun l => is_bad_timestamp (extract now_year args l)) lines))
      as Hf by (apply filter_In; split; [exact Hin|now rewrite Hbad]).
    destruct (filter _ lines) as [|x l]; [destruct Hf|].
    rewrite len_cons. pose proof (len_nonneg l). lia.
Qed.

Lemma C10_matched_counts_unparsed_timestamps_witness :
  let lines := [$"Foo  1 00:00:00 gw kernel: IPTABLES-BLOCKED: SRC=192.0.2.9 DST=192.0.2.1 PROTO=TCP";
                $"Jan  1 00:00:00 gw kernel: IPTABLES-BLOCKED: SRC=192.0.2.9 DST=192.0.2.1 PROTO=TCP"] in
  let args := Args ($"blocked") ($"tcp") 3 ($"60s") ($"blacklist") ($"3h") true in
  total_events (ip_timestamps (read_log 2025 args lines))
  < matched_lines (read_log 2025 args lines).
Proof.
  intros lines args.
  apply (proj2 (proj2 (proj2 (C10_matched_counts_unparsed_timestamps 2025 args lines)))
           ($"Foo  1 00:00:00 gw kernel: IPTABLES-BLOCKED: SRC=192.0.2.9 DST=192.0.2.1 PROTO=TCP")).
  - now left.
  - vm_compute. reflexivity.
Defined.

(** ** The pattern and the addresses it lets through *)

Lemma firstn_prefix {A} (pre rest : list A) :
  firstn (List.length (pre ++ rest) - List.length rest) (pre ++ rest) = pre.
Proof.
  rewrite length_app, Nat.add_sub.
  induction pre as [|x pre IH]; [apply firstn_O|].
  cbn [List.length app firstn]. now rewrite IH.
Qed.

(** A greedy repetition consumes a run of its class of at least [min]
    characters, whatever the continuation accepts. *)
Lemma match_rep_sound {R} (cls : ascii -> bool) (s : str) :
  forall (mn : nat) (mx : option nat) (k : str -> option R) (res : R),
    match_rep cls mn mx s k = Some res ->
    exists pre rest,
      s = pre ++ rest /\ forallb cls pre = true
      /\ (mn <= List.length pre)%nat /\ k rest = Some res.
Proof.
  induction s as [|c s IH]; intros mn mx k res H.
  - cbn [match_rep] in H. destruct mn; [|discriminate].
    exists [], []. repeat split; [apply Nat.le_refl|exact H].
  - cbn [match_rep] in H.
    assert (match mn with O => k (c :: s) | S _ => None end = Some res ->
            exists pre rest,
              c :: s = pre ++ rest /\ forallb cls pre = true
              /\ (mn <= List.length pre)%nat /\ k rest = Some res) as Hstop.
    { intros Hk. destruct mn; [|discriminate].
      exists [], (c :: s). repeat split; [apply Nat.le_refl|exact Hk]. }
    destruct (cls c && match mx with Some O => false | _ => true end) eqn:Hc;
      [|now apply Hstop].
    destruct (match_rep cls (Nat.pred mn) (option_map Nat.pred mx) s k)
      as [r|] eqn:Hrec; [|now apply Hstop].
    injection H as <-.
    destruct (IH _ _ _ _ Hrec) as [pre [rest [-> [Hall [Hlen Hk]]]]].
    apply andb_true_iff in Hc. destruct Hc as [Hc _].
    exists (c :: pre), rest. cbn [forallb List.length app].
    rewrite Hc, Hall. repeat split; [lia|exact Hk].
Qed.

(** Matching keeps the groups named [ip] well formed. *)
Lemma rmatch_good_ip {R} (r : regex) :
  ip_group_ok r ->
  forall (s : str) (g : groups) (k : str -> groups -> option R) (res : R),
    rmatch r s g k = Some res -> good_ip g ->
    exists s' g', good_ip g' /\ k s' g' = Some res.
Proof.
  induction r as [ic l|cls mn mx|r1 IH1 r2 IH2|r1 IH1 r2 IH2|name r1 IH1];
    intros Hok s g k res H Hg; cbn [rmatch] in H.
  - destruct (match_lit ic l s) as [s'|]; [|discriminate].
    now exists s', g.
  - apply match_rep_sound in H.
    destruct H as [pre [rest [_ [_ [_ Hk]]]]]. now exists rest, g.
  - destruct Hok as [Hok1 Hok2].
    destruct (IH1 Hok1 _ _ _ _ H Hg) as [s1 [g1 [Hg1 H1]]].
    exact (IH2 Hok2 _ _ _ _ H1 Hg1).
  - destruct Hok as [Hok1 Hok2].
    destruct (rmatch r1 s g k) as [r|] eqn:H1.
    + injection H as <-. exact (IH1 Hok1 _ _ _ _ H1 Hg).
    + exact (IH2 Hok2 _ _ _ _ H Hg).
  - destruct Hok as [Hok1 Hname].
    destruct (str_eqb name ($"ip")) eqn:Hn.
    + destruct (Hname eq_refl) as [mn [mx ->]]. cbn [rmatch] in H.
      apply match_rep_sound in H.
      destruct H as [pre [rest [-> [Hall [Hlen Hk]]]]].
      rewrite firstn_prefix in Hk.
      exists rest, ((name, pre) :: g). split; [|exact Hk].
      intros v Hv. cbn [group] in Hv. rewrite Hn in Hv. injection Hv as <-.
      split; [destruct pre; [cbn in Hlen; lia|discriminate]|exact Hall].
    + destruct (IH1 Hok1 _ _ _ _ H Hg) as [s1 [g1 [Hg1 H1]]].
      exists s1, ((name, firstn (List.length s - List.length s1) s) :: g1).
      split; [|exact H1].
      intros v Hv. cbn [group] in Hv. rewrite Hn in Hv. now apply Hg1.
Qed.

Lemma log_pattern_ip_group_ok : ip_group_ok log_pattern.
Proof.
  unfold log_pattern, plus, star, text. cbn [ip_group_ok].
  repeat split; try (intros H; vm_compute in H; discriminate H).
  intros _. now exists 0%nat, None.
Qed.

Lemma log_pattern_search_ip (line : str) (data : groups) :
  log_pattern_search line = Some data -> good_ip data.
Proof.
  unfold log_pattern_search, re_match. intros H.
  destruct (rmatch log_pattern line [] (fun s' g => Some (s', g)))
    as [[rest g]|] eqn:Hm; [|discriminate].
  injection H as <-.
  destruct (rmatch_good_ip log_pattern log_pattern_ip_group_ok _ _ _ _ Hm)
    as [s' [g' [Hg' Heq]]].
  - intros v Hv. discriminate Hv.
  - now injection Heq as _ <-.
Qed.

Lemma extract_event_ip (now_year : Z) (args : arguments) (line ip : str) (t : Z) :
  extract now_year args line = Event ip t -> captured_ip_ok ip.
Proof.
  unfold extract.
  destruct (log_pattern_search line) as [data|] eqn:Hs; [|discriminate].
  destruct (group data ($"rule")); [|discriminate].
  destruct (group data ($"proto")); [|discriminate].
  destruct (group data ($"ip")) as [ip'|] eqn:Hip; [|discriminate].
  destruct (group data ($"timestamp")); [|discriminate].
  destruct (_ || _); [discriminate|].
  destruct (strptime _); [|discriminate].
  intros [= <- _]. exact (log_pattern_search_ip line data Hs ip' Hip).
Qed.

Lemma index_append_keys (P : str -> Prop) (ip : str) (t : Z) (idx : index) :
  P ip -> Forall (fun kv => P (fst kv)) idx ->
  Forall (fun kv => P (fst kv)) (index_append ip t idx).
Proof.
  intros Hip. induction 1 as [|[k ts] idx Hk Hall IH]; cbn [index_append].
  - now repeat constructor.
  - destruct (str_eqb k ip); constructor; assumption.
Qed.

Lemma read_log_keys (now_year : Z) (args : arguments) (lines : list str) :
  Forall (fun kv => captured_ip_ok (fst kv))
         (ip_timestamps (read_log now_year args lines)).
Proof.
  unfold read_log.
  assert (forall st,
             Forall (fun kv => captured_ip_ok (fst kv)) (ip_timestamps st) ->
             Forall (fun kv => captured_ip_ok (fst kv))
                    (ip_timestamps (fold_left (read_line now_year args) lines st)))
    as Hfold.
  { induction lines as [|l lines IH]; intros st Hst; [exact Hst|].
    cbn [fold_left]. apply IH. unfold read_line.
    destruct (extract now_year args l) as [| | |ip t] eqn:He;
      cbn [ip_timestamps]; try exact Hst.
    apply index_append_keys; [|exact Hst].
    exact (extract_event_ip _ _ _ _ _ He). }
  apply Hfold. constructor.
Qed.

(** C3, the claim as the specification words it, refuted: the line below
    passes the pattern and the filter, its [SRC] field [1.2.3] is neither an
    IPv4 nor an IPv6 address, it becomes a key of the index all the same,
    and the dispatcher takes its [except ValueError] branch. *)
Lemma C3_unparseable_address_is_extracted :
  let line := $"Jan  1 00:00:00 gw kernel: IPTABLES-BLOCKED: IN=eth0 SRC=1.2.3 DST=192.0.2.1 PROTO=TCP" in
  let args := Args ($"blocked") ($"tcp") 1 ($"60s") ($"blacklist") ($"3h") false in
  let t := 63871286400 in               (* 2025-01-01 00:00:00 *)
  extract 2025 args line = Event ($"1.2.3") t
  /\ ip_address ($"1.2.3") = None
  /\ ip_timestamps (read_log 2025 args [line]) = [($"1.2.3", [t])]
  /\ main (fun _ => RunOk) 2025 args (Some [line])
     = ([Print (MsgFinishedReading 1); Print (MsgWarning ($"1.2.3"));
         Print (MsgSummary 1 1 1 0)], None).
Proof. vm_compute. repeat split. Qed.

(** C3, amended.  The extractor produces an event only if the [SRC] field
    is a non-empty run of digits, dots, colons and the letters a-f and A-F;
    it does not check that the run is an address.  So every key of the
    index is such a run, and when a key is not an address the dispatcher
    takes its [InvalidAddress] branch: it warns, reports no violation and
    never calls the sink. *)
Theorem C3_extractor_checks_characters_only
        (os : list str -> run_result) (now_year : Z) (args : arguments)
        (W removeafter : Z) :
  (forall line ip t,
      extract now_year args line = Event ip t ->
      ip <> [] /\ forallb ip_chars ip = true)
  /\ (forall lines ip ts,
         In (ip, ts) (ip_timestamps (read_log now_year args lines)) ->
         ip <> [] /\ forallb ip_chars ip = true)
  /\ (forall ip ts,
         ip_address ip = None ->
         let r := analyze_ip os args W removeafter ip ts in
         Forall (fun e => e = Print (MsgWarning ip)) (fst r)
         /\ snd r <> Broke
         /\ ~ reports_violation r
         /\ count_of is_sink_call (fst r) = 0
         /\ count_of is_run (fst r) = 0).
Proof.
  split; [|split].
  - intros line ip t He. exact (extract_event_ip _ _ _ _ _ He).
  - intros lines ip ts Hin.
    pose proof (read_log_keys now_year args lines) as Hk.
    rewrite Forall_forall in Hk. exact (Hk _ Hin).
  - intros ip ts Hip r. subst r.
    destruct (analyze_ip_shape os args W removeafter ip ts)
      as [[_ [v [_ [_ [_ [Hv _]]]]]]|[Hnb Hw]]; [congruence|].
    pose proof (warnings_no_violation ip _ Hw) as [He [_ [Hs Hr]]].
    repeat split; try assumption.
    unfold reports_violation. congruence.
Qed.

Lemma C3_extractor_checks_characters_only_witness :
  ($"1.2.3") <> [] /\ forallb ip_chars ($"1.2.3") = true.
Proof.
  apply (proj1 (C3_extractor_checks_characters_only
                  (fun _ => RunOk) 2025
                  (Args ($"blocked") ($"tcp") 1 ($"60s") ($"blacklist") ($"3h") false)
                  60 10800)
           ($"Jan  1 00:00:00 gw kernel: IPTABLES-BLOCKED: IN=eth0 SRC=1.2.3 DST=192.0.2.1 PROTO=TCP")
           ($"1.2.3") 63871286400).
  vm_compute. reflexivity.
Defined.

(** ** Further examples *)

(** The whole program on a log of four matching lines of one address, in
    arrival order 0s, 20s, 61s, 10s, with threshold 3 and window 60s. *)
Example main_end_to_end :
  main (fun _ => RunOk) 2025
       (Args ($"blocked") ($"tcp") 3 ($"60s") ($"blacklist") ($"3h") true)
       (Some [$"Jan  1 00:00:00 gw kernel: IPTABLES-BLOCKED: SRC=198.51.100.4 PROTO=TCP";
              $"Jan  1 00:00:20 gw kernel: IPTABLES-BLOCKED: SRC=198.51.100.4 PROTO=TCP";
              $"Jan  1 00:01:01 gw kernel: IPTABLES-BLOCKED: SRC=198.51.100.4 PROTO=TCP";
              $"Jan  1 00:00:10 gw kernel: IPTABLES-BLOCKED: SRC=198.51.100.4 PROTO=TCP";
              $"Jan  1 00:00:10 gw kernel: IPTABLES-ALLOWED: SRC=198.51.100.4 PROTO=TCP";
              $"not a firewall line"])
  = ([Print (MsgFinishedReading 4);
      Print (MsgViolation ($"198.51.100.4") 4);
      Print (MsgDetails 3 63871286400 63871286460);  (* 2025-01-01 00:00:00 *)
      Print (MsgDryrun ($"198.51.100.4") ($"blacklist") 10800);
      Print (MsgSummary 6 4 1 1)], None).
Proof. vm_compute. reflexivity. Qed.

(** Without the precondition of C9 the start indices leave the list: with
    a threshold of 0 and an address the dispatcher refuses, the loop warns
    once per index and then reads [timestamps[n]]. *)
Example nonpositive_threshold_index_error :
  analyze_ip (fun _ => RunOk)
             (Args ($"blocked") ($"tcp") 0 ($"60s") ($"blacklist") ($"3h") true)
             60 10800 ($"1.2.3") [0; 10]
  = ([Print (MsgWarning ($"1.2.3")); Print (MsgWarning ($"1.2.3"))], Raised).
Proof. vm_compute. reflexivity. Qed.

(** [int()] skips TAB..CR and the space around a literal, not the
    separators FS..US; it counts the digits of the literal, leading zeros
    included, and refuses more than 4300. *)
Example int_white_space_and_limit :
  parse_duration_to_seconds ("028"%char :: $"5s") = inr InvalidValue
  /\ parse_duration_to_seconds ("011"%char :: $"5s") = inl 5
  /\ parse_duration_to_seconds (repeat "0"%char 4299 ++ $"5s") = inl 5
  /\ parse_duration_to_seconds (repeat "0"%char 4300 ++ $"5s")
     = inr InvalidValue.
Proof. vm_compute. repeat split. Qed.

(** The two [OverflowError]s.  A window of 3000000 days is a [timedelta],
    but its end is past the year 9999: the program dies at the first
    window, after the end of the reading.  A window of 1000000000 days is
    no [timedelta]: the program dies before it prints anything, and before
    it looks at [--removeafter]. *)
Example window_overflow :
  let line := $"Jan  1 00:00:00 gw kernel: IPTABLES-BLOCKED: SRC=192.0.2.1 PROTO=TCP" in
  main (fun _ => RunOk) 2025
       (Args ($"blocked") ($"tcp") 1 ($"3000000d") ($"blacklist") ($"2m") true)
       (Some [line])
  = ([Print (MsgFinishedReading 1)], Some OverflowError)
  /\ main (fun _ => RunOk) 2025
          (Args ($"blocked") ($"tcp") 1 ($"1000000000d") ($"blacklist")
                ($"2 min") true)
          (Some [line])
     = ([], Some OverflowError).
Proof. vm_compute. split; reflexivity. Qed.

(** [strptime] has no year to work with and falls back on 1900, which is
    not a leap year: a line of the 29th of February matches the filter and
    is dropped. *)
Example leap_day_is_dropped :
  extract 2024
          (Args ($"blocked") ($"tcp") 3 ($"60s") ($"blacklist") ($"3h") true)
          ($"Feb 29 12:00:00 gw kernel: IPTABLES-BLOCKED: SRC=198.51.100.4 PROTO=TCP")
  = BadTimestamp.
Proof. vm_compute. reflexivity. Qed.

(* ================================================================= *)
(** * Part III.  Further properties of the program *)
(* ================================================================= *)

(** ** The index built by the reader *)

Lemma str_eqb_eq (a b : str) : str_eqb a b = true <-> a = b.
Proof.
  revert b. induction a as [|x a IH]; intros [|y b]; cbn [str_eqb];
    try (split; [discriminate|congruence]); [split; reflexivity|].
  rewrite andb_true_iff, Ascii.eqb_eq, IH.
  split; [intros [-> ->]; reflexivity|intros [= -> ->]; now split].
Qed.

Lemma str_eqb_refl (a : str) : str_eqb a a = true.
Proof. now apply str_eqb_eq. Qed.

Lemma str_eqb_neq (a b : str) : str_eqb a b = false <-> a <> b.
Proof.
  rewrite <- str_eqb_eq. destruct (str_eqb a b); split; congruence.
Qed.

Lemma index_get_none (idx : index) (ip : str) :
  index_get idx ip = None <-> ~ In ip (keys idx).
Proof.
  induction idx as [|[k ts] idx IH]; cbn [index_get keys map fst In].
  - split; [intros _ []|reflexivity].
  - destruct (str_eqb k ip) eqn:E.
    + apply str_eqb_eq in E. split; [discriminate|intros H; exfalso; apply H; now left].
    + apply str_eqb_neq in E. rewrite IH. unfold keys. tauto.
Qed.

Lemma index_append_keys_old (ip : str) (t : Z) (idx : index) :
  In ip (keys idx) -> keys (index_append ip t idx) = keys idx.
Proof.
  induction idx as [|[k ts] idx IH]; cbn [keys map fst In]; [intros []|].
  intros Hin. cbn [index_append]. destruct (str_eqb k ip) eqn:E; [reflexivity|].
  apply str_eqb_neq in E. cbn [keys map fst]. f_equal. apply IH.
  destruct Hin as [Hin|Hin]; [congruence|exact Hin].
Qed.

Lemma index_append_keys_new (ip : str) (t : Z) (idx : index) :
  ~ In ip (keys idx) -> keys (index_append ip t idx) = keys idx ++ [ip].
Proof.
  induction idx as [|[k ts] idx IH]; cbn [keys map fst In]; [reflexivity|].
  intros Hin. cbn [index_append]. destruct (str_eqb k ip) eqn:E.
  - apply str_eqb_eq in E. exfalso. apply Hin. now left.
  - cbn [keys map fst app]. f_equal. apply IH. tauto.
Qed.

Lemma index_get_append (ip ip' : str) (t : Z) (idx : index) :
  index_get (index_append ip t idx) ip'
  = if str_eqb ip ip'
    then Some (match index_get idx ip with Some ts => ts | None => [] end ++ [t])
    else index_get idx ip'.
Proof.
  induction idx as [|[k ts] idx IH]; cbn [index_append index_get].
  - destruct (str_eqb ip ip'); reflexivity.
  - destruct (str_eqb k ip) eqn:E; cbn [index_get].
    + apply str_eqb_eq in E. subst k.
      destruct (str_eqb ip ip'); reflexivity.
    + destruct (str_eqb k ip') eqn:E'.
      * apply str_eqb_eq in E'. subst k.
        now replace (str_eqb ip ip') with false
          by (symmetry; apply str_eqb_neq; apply str_eqb_neq in E; congruence).
      * exact IH.
Qed.

Lemma index_append_nonempty (ip : str) (t : Z) (idx : index) :
  Forall (fun kv => snd kv <> []) idx ->
  Forall (fun kv => snd kv <> []) (index_append ip t idx).
Proof.
  induction 1 as [|[k ts] idx Hk Hall IH]; cbn [index_append].
  - constructor; [discriminate|constructor].
  - destruct (str_eqb k ip); constructor; try assumption.
    cbn [snd]. intros H. now apply app_eq_nil in H.
Qed.

Section ReaderFacts.
Variable now_year : Z.
Variable args : arguments.

Let step := read_line now_year args.

Lemma read_line_timeline (st : reader) (line ip : str) :
  timeline (ip_timestamps (step st line)) ip
  = timeline (ip_timestamps st) ip ++ events_of now_year args ip [line].
Proof.
  unfold step, read_line, events_of. cbn [flat_map].
  destruct (extract now_year args line) as [| | |ip' t];
    cbn [ip_timestamps]; rewrite ?app_nil_r; try reflexivity.
  unfold timeline. rewrite index_get_append.
  destruct (str_eqb ip' ip) eqn:E; [|now rewrite app_nil_r].
  apply str_eqb_eq in E. now subst ip'.
Qed.

Lemma read_line_index_ok (st : reader) (line : str) :
  index_ok (ip_timestamps st) -> index_ok (ip_timestamps (step st line)).
Proof.
  intros [Hnd Hne]. unfold step, read_line.
  destruct (extract now_year args line) as [| | |ip t];
    cbn [ip_timestamps]; try (split; assumption).
  split; [|now apply index_append_nonempty].
  destruct (in_dec (list_eq_dec ascii_dec) ip (keys (ip_timestamps st)))
    as [Hin|Hin].
  - now rewrite index_append_keys_old.
  - rewrite index_append_keys_new by exact Hin.
    apply NoDup_app; [exact Hnd|repeat constructor; intros []|].
    intros x Hx [<-|[]]. contradiction.
Qed.

Lemma read_line_counts (st : reader) (line : str) :
  total_lines (step st line) = total_lines st + 1
  /\ total_events (ip_timestamps (step st line))
     = total_events (ip_timestamps st)
       + (if is_event (extract now_year args line) then 1 else 0).
Proof.
  unfold step, read_line.
  destruct (extract now_year args line);
    cbn [total_lines ip_timestamps is_event];
    rewrite ?total_events_append; split; lia.
Qed.

Lemma read_fold (lines : list str) (st : reader) :
  let st' := fold_left step lines st in
  (index_ok (ip_timestamps st) -> index_ok (ip_timestamps st'))
  /\ (forall ip, timeline (ip_timestamps st') ip
                 = timeline (ip_timestamps st) ip
                   ++ events_of now_year args ip lines)
  /\ total_lines st' = total_lines st + len lines
  /\ total_events (ip_timestamps st')
     = total_events (ip_timestamps st) + count_events now_year args lines.
Proof.
  revert st. induction lines as [|l lines IH]; intros st; cbn [fold_left].
  - cbn zeta. split; [tauto|split; [|split]].
    + intros ip. unfold events_of. cbn [flat_map]. now rewrite app_nil_r.
    + change (len (@nil str)) with 0. lia.
    + unfold count_events. cbn [filter]. change (len (@nil str)) with 0. lia.
  - destruct (IH (step st l)) as [H1 [H2 [H3 H4]]].
    destruct (read_line_counts st l) as [Hc1 Hc2].
    cbn zeta. split; [|split; [|split]].
    + intros Hok. apply H1. now apply read_line_index_ok.
    + intros ip. rewrite H2, read_line_timeline, <- app_assoc. f_equal.
      unfold events_of. cbn [flat_map]. now rewrite app_nil_r.
    + rewrite H3, Hc1, len_cons. lia.
    + rewrite H4, Hc2. unfold count_events. cbn [filter].
      destruct (is_event (extract now_year args l)); [rewrite len_cons|]; lia.
Qed.
End ReaderFacts.

Lemma index_ok_get (idx : index) (ip : str) :
  index_ok idx ->
  index_get idx ip
  = match timeline idx ip with
    | [] => None
    | ts => Some ts
    end.
Proof.
  intros [_ Hne]. unfold timeline.
  induction Hne as [|[k ts] idx Hk _ IH]; cbn [index_get]; [reflexivity|].
  destruct (str_eqb k ip); [|exact IH].
  cbn [snd] in Hk. destruct ts; [congruence|reflexivity].
Qed.

Lemma index_len_le_events (idx : index) :
  Forall (fun kv => snd kv <> []) idx -> len idx <= total_events idx.
Proof.
  induction 1 as [|[k ts] idx Hk _ IH]; [reflexivity|].
  rewrite len_cons, total_events_cons. cbn [snd] in Hk.
  destruct ts as [|t ts]; [congruence|].
  rewrite len_cons. pose proof (len_nonneg ts). lia.
Qed.

Lemma filter_none {A} (p : A -> bool) (l : list A) :
  (forall x, In x l -> p x = false) -> filter p l = [].
Proof.
  induction l as [|x l IH]; [reflexivity|]. intros H. cbn [filter].
  rewrite (H x (or_introl eq_refl)). apply IH. intros y Hy. apply H. now right.
Qed.

Lemma disjoint_filters_le {A} (p q : A -> bool) (l : list A) :
  (forall x, p x = true -> q x = false) ->
  len (filter p l) + len (filter q l) <= len l.
Proof.
  intros Hpq. induction l as [|x l IH]; [reflexivity|].
  cbn [filter]. rewrite len_cons.
  destruct (p x) eqn:Hp.
  - rewrite (Hpq x Hp), len_cons. lia.
  - destruct (q x); [rewrite len_cons|]; lia.
Qed.

Lemma index_round_trip (now_year : Z) (args : arguments) (lines : list str) :
  let idx := ip_timestamps (read_log now_year args lines) in
  NoDup (keys idx)
  /\ Forall (fun kv => snd kv <> []) idx
  /\ forall ip,
       index_get idx ip
       = match events_of now_year args ip lines with
         | [] => None
         | ts => Some ts
         end.
Proof.
  cbn zeta. unfold read_log.
  destruct (read_fold now_year args lines (Reader 0 0 [])) as [H1 [H2 _]].
  assert (index_ok (ip_timestamps
                      (fold_left (read_line now_year args) lines (Reader 0 0 []))))
    as Hok by (apply H1; split; constructor).
  split; [apply Hok|split; [apply Hok|]].
  intros ip. rewrite (index_ok_get _ ip Hok), H2. reflexivity.
Qed.

(** X1.  The index is a dictionary of append-only lists: after any log no
    address is a key twice and no timeline is empty, and the timeline of an
    address is exactly the times of its events in the order of the lines
    ([get] gives nothing precisely for an address with no event). *)
Theorem X1_index_round_trip (now_year : Z) (args : arguments) (lines : list str) :
  let idx := ip_timestamps (read_log now_year args lines) in
  NoDup (keys idx)
  /\ Forall (fun kv => snd kv <> []) idx
  /\ forall ip,
       index_get idx ip
       = match events_of now_year args ip lines with
         | [] => None
         | ts => Some ts
         end.
Proof. exact (index_round_trip now_year args lines). Qed.

Lemma reader_counters (now_year : Z) (args : arguments) (lines : list str) :
  let st := read_log now_year args lines in
  total_lines st = len lines
  /\ total_events (ip_timestamps st) = count_events now_year args lines
  /\ matched_lines st
     = count_events now_year args lines + count_bad now_year args lines
  /\ len (ip_timestamps st) <= total_events (ip_timestamps st)
  /\ total_events (ip_timestamps st) <= matched_lines st
  /\ matched_lines st <= total_lines st.
Proof.
  cbn zeta.
  destruct (read_fold now_year args lines (Reader 0 0 [])) as [H1 [_ [H3 H4]]].
  fold (read_log now_year args lines) in H1, H3, H4.
  cbn [total_lines ip_timestamps total_events fold_right] in H3, H4.
  pose proof (read_fold_balance now_year args lines (Reader 0 0 [])) as Hb.
  fold (read_log now_year args lines) in Hb.
  cbn [matched_lines ip_timestamps total_events fold_right] in Hb.
  assert (0 <= count_bad now_year args lines) as Hnn by apply len_nonneg.
  assert (count_events now_year args lines + count_bad now_year args lines
          <= len lines) as Hle.
  { unfold count_events, count_bad. apply disjoint_filters_le.
    intros l. destruct (extract now_year args l); cbn; congruence. }
  repeat split; try lia.
  apply index_len_le_events. apply H1. split; constructor.
Qed.

(** X2.  The counters of the summary: every line is counted once in
    [total_lines]; the matched lines are the lines that gave an event plus
    those with an unparsable timestamp; and unique addresses <= events <=
    matched lines <= total lines. *)
Theorem X2_reader_counters (now_year : Z) (args : arguments) (lines : list str) :
  let st := read_log now_year args lines in
  total_lines st = len lines
  /\ total_events (ip_timestamps st) = count_events now_year args lines
  /\ matched_lines st
     = count_events now_year args lines + count_bad now_year args lines
  /\ len (ip_timestamps st) <= total_events (ip_timestamps st)
  /\ total_events (ip_timestamps st) <= matched_lines st
  /\ matched_lines st <= total_lines st.
Proof. exact (reader_counters now_year args lines). Qed.

(** X3.  A log in which no line gives an event leaves the index empty.
    When the two durations parse and [--within] is a [timedelta], the
    program then prints its two reports and nothing else: no warning, no
    violation, no command, whatever the threshold; no window is computed,
    so the size of the window does not matter beyond that. *)
Theorem X3_noise_only (os : list str -> run_result) (now_year : Z)
        (args : arguments) (lines : list str) (W R : Z) :
  (forall line ip t, In line lines -> extract now_year args line <> Event ip t) ->
  parse_duration_to_seconds (arg_within args) = inl W ->
  timedelta W = Some W ->
  parse_duration_to_seconds (arg_removeafter args) = inl R ->
  ip_timestamps (read_log now_year args lines) = []
  /\ main os now_year args (Some lines)
     = ([Print (MsgFinishedReading (count_bad now_year args lines));
         Print (MsgSummary (len lines) (count_bad now_year args lines) 0 0)],
        None).
Proof.
  intros Hno HW HT HR.
  destruct (reader_counters now_year args lines) as [Ht [He [Hm [Hl _]]]].
  assert (count_events now_year args lines = 0) as H0.
  { unfold count_events. rewrite filter_none; [reflexivity|].
    intros l Hin. specialize (Hno l).
    destruct (extract now_year args l) as [| | |ip t]; try reflexivity.
    exfalso. exact (Hno ip t Hin eq_refl). }
  assert (ip_timestamps (read_log now_year args lines) = []) as Hidx.
  { destruct (ip_timestamps (read_log now_year args lines)) as [|kv idx];
      [reflexivity|].
    rewrite len_cons in Hl. pose proof (len_nonneg idx). lia. }
  split; [exact Hidx|].
  unfold main. rewrite HW, HT, HR, Hidx.
  cbn [analyze app len List.length Z.of_nat].
  rewrite Ht, Hm, H0. reflexivity.
Qed.

Lemma X3_noise_only_witness :
  main (fun _ => RunOk) 2025
       (Args ($"blocked") ($"tcp") 1 ($"60s") ($"blacklist") ($"3h") false)
       (Some [$"not a firewall line";
              $"Jan  1 00:00:00 gw kernel: IPTABLES-ALLOWED: SRC=192.0.2.9 PROTO=TCP";
              $"Jan 99 00:00:00 gw kernel: IPTABLES-BLOCKED: SRC=192.0.2.9 PROTO=TCP"])
  = ([Print (MsgFinishedReading 1); Print (MsgSummary 3 1 0 0)], None).
Proof.
  refine (proj2 (X3_noise_only (fun _ => RunOk) 2025
                   (Args ($"blocked") ($"tcp") 1 ($"60s") ($"blacklist") ($"3h") false)
                   _ 60 10800 _ eq_refl eq_refl eq_refl)).
  intros line ip t [<-|[<-|[<-|[]]]]; vm_compute; discriminate.
Defined.

(** ** The hit count of a window, again *)

Lemma filter_len_le {A} (p : A -> bool) (l : list A) : len (filter p l) <= len l.
Proof.
  induction l as [|x l IH]; [reflexivity|]. cbn [filter].
  destruct (p x); rewrite ?len_cons; lia.
Qed.

Lemma filter_len_mono {A} (p q : A -> bool) (l : list A) :
  (forall x, p x = true -> q x = true) ->
  len (filter p l) <= len (filter q l).
Proof.
  intros Hpq. induction l as [|x l IH]; [reflexivity|]. cbn [filter].
  destruct (p x) eqn:Hp.
  - rewrite (Hpq x Hp), !len_cons. lia.
  - destruct (q x); rewrite ?len_cons; lia.
Qed.

Lemma window_hits_mono (W W' : Z) (t : list Z) (i : nat) :
  W <= W' -> window_hits W t i <= window_hits W' t i.
Proof.
  intros HW. unfold window_hits.
  assert (len (filter (fun tj => tj <=? nth i t 0 + W) (skipn (S i) t))
          <= len (filter (fun tj => tj <=? nth i t 0 + W') (skipn (S i) t)));
    [|lia].
  apply filter_len_mono. intros x Hx. apply Z.leb_le in Hx. apply Z.leb_le. lia.
Qed.

Lemma window_hits_bounds (W : Z) (t : list Z) (i : nat) :
  (i < List.length t)%nat ->
  1 <= window_hits W t i <= len t - Z.of_nat i.
Proof.
  intros Hi. unfold window_hits.
  pose proof (filter_len_le (fun tj => tj <=? nth i t 0 + W) (skipn (S i) t)) as H.
  pose proof (len_nonneg (filter (fun tj => tj <=? nth i t 0 + W) (skipn (S i) t))).
  assert (len (skipn (S i) t) = len t - Z.of_nat i - 1)
    by (unfold len; rewrite length_skipn; lia).
  lia.
Qed.


(** X4.  Widening the window never loses a violation, as long as the
    wider windows end inside the range of [datetime]: if an address is
    reported for the window [W], it is reported for every [W' >= W] whose
    windows fit, for a start index that is not later.  (A window that does
    not fit ends the program in [OverflowError] instead.) *)
Theorem X4_monotone_in_window
        (os : list str -> run_result) (args : arguments) (W W' removeafter : Z)
        (ip : str) (ts : list Z) :
  W <= W' ->
  windows_fit W' ts = true ->
  reports_violation (analyze_ip os args W removeafter ip ts) ->
  reports_violation (analyze_ip os args W' removeafter ip ts)
  /\ forall v i,
       ip_address ip = Some v ->
       fst (analyze_ip os args W removeafter ip ts)
       = violation_effects os args W removeafter ip v (sort ts) i ->
       (forall i', (i' < i)%nat -> window_hits W (sort ts) i' < arg_howmany args) ->
       exists i',
         (i' <= i)%nat
         /\ fst (analyze_ip os args W' removeafter ip ts)
            = violation_effects os args W' removeafter ip v (sort ts) i'.
Proof.
  intros HW Hfit Hrep.
  pose proof Hrep as Hrep0.
  apply analyze_ip_reports in Hrep.
  destruct Hrep as [v [i [Hv [Hi [Hr [Hlen [Hout [Hq [Hfirst _]]]]]]]]].
  assert (reports_violation (analyze_ip os args W' removeafter ip ts)) as Hrep'.
  { apply (analyze_ip_finds os args W' removeafter ip v ts i Hv Hlen Hi Hr).
    - pose proof (window_hits_mono W W' (sort ts) i HW). lia.
    - intros i' Hi'. apply windows_fit_sort; [exact Hfit|lia]. }
  split; [exact Hrep'|].
  intros v0 i0 Hv0 Hout0 Hfirst0.
  assert (v0 = v) as -> by congruence.
  apply analyze_ip_reports in Hrep'.
  destruct Hrep' as [v' [i' [Hv' [Hi' [_ [_ [Hout' [Hq' [Hfirst' _]]]]]]]]].
  assert (v' = v) as -> by congruence.
  exists i'. split; [|exact Hout'].
  destruct (Nat.le_gt_cases i' i0) as [Hle|Hgt]; [exact Hle|].
  exfalso.
  assert (arg_howmany args <= window_hits W (sort ts) i0) as Hq0.
  { rewrite Hout in Hout0. unfold violation_effects in Hout0.
    injection Hout0 as Hh _ _. rewrite <- Hh. exact Hq. }
  pose proof (Hfirst' i0 Hgt).
  pose proof (window_hits_mono W W' (sort ts) i0 HW). lia.
Qed.

Lemma X4_monotone_in_window_witness :
  reports_violation
    (analyze_ip (fun _ => RunOk)
                (Args ($"blocked") ($"tcp") 3 ($"60s") ($"blacklist") ($"3h") true)
                100 10800 ($"203.0.113.7") [61; 20; 90; 0]).
Proof.
  apply (X4_monotone_in_window
           (fun _ => RunOk)
           (Args ($"blocked") ($"tcp") 3 ($"60s") ($"blacklist") ($"3h") true)
           70 100 10800 ($"203.0.113.7") [61; 20; 90; 0]).
  - lia.
  - reflexivity.
  - reflexivity.
Defined.

(** X5.  What a reported violation says: its window starts at a timestamp
    of the address and ends [W] later, and its hit count is at least the
    threshold, at least 1 and at most the number of events from the start
    of the window on, so at most the length of the timeline. *)
Theorem X5_reported_window
        (os : list str -> run_result) (args : arguments) (W removeafter : Z)
        (ip : str) (ts : list Z) (h ws we : Z) :
  In (Print (MsgDetails h ws we)) (fst (analyze_ip os args W removeafter ip ts)) ->
  In ws ts /\ we = ws + W
  /\ arg_howmany args <= h /\ 1 <= h <= len ts
  /\ exists i, nth_error (sort ts) i = Some ws
               /\ h = window_hits W (sort ts) i
               /\ h <= len ts - Z.of_nat i.
Proof.
  intros Hin.
  destruct (analyze_ip_shape os args W removeafter ip ts)
    as [[_ [v [h' [ws' [we' [Hv Hout]]]]]]|[_ Hw]].
  - assert (reports_violation (analyze_ip os args W removeafter ip ts)) as Hrep
        by (unfold reports_violation; now rewrite Hout).
    apply analyze_ip_reports in Hrep.
    destruct Hrep as [v0 [i [_ [Hi [_ [_ [Hout' [Hq _]]]]]]]].
    rewrite Hout' in Hin. unfold violation_effects in Hin.
    cbn [In] in Hin. destruct Hin as [Hin|[Hin|Hin]]; [discriminate| |].
    + injection Hin as <- <- <-.
      assert (i < List.length (sort ts))%nat as Hi' by now rewrite sort_length.
      pose proof (window_hits_bounds W (sort ts) i Hi') as Hb.
      rewrite sort_len in Hb.
      split; [|split; [reflexivity|split; [exact Hq|split; [lia|]]]].
      * eapply Permutation_in; [apply Permutation_sym, sort_perm|].
        now apply nth_In.
      * exists i. split; [|split; [reflexivity|lia]].
        now apply nth_error_nth'.
    + apply add_to_ipset_no_details in Hin. destruct Hin.
  - rewrite Forall_forall in Hw. apply Hw in Hin. discriminate.
Qed.

Lemma X5_reported_window_witness :
  In 0 [61; 0; 20; 10] /\ 60 = 0 + 60 /\ 3 <= 3 /\ 1 <= 3 <= len [61; 0; 20; 10].
Proof.
  destruct (X5_reported_window
              (fun _ => RunOk)
              (Args ($"blocked") ($"tcp") 3 ($"60s") ($"blacklist") ($"3h") true)
              60 10800 ($"203.0.113.7") [61; 0; 20; 10] 3 0 60)
    as [H1 [H2 [H3 [H4 _]]]].
  - right. left. reflexivity.
  - repeat split; assumption || apply H4.
Defined.



(** ** The second phase as a whole *)

Lemma run_commands_app (out1 out2 : list effect) :
  run_commands (out1 ++ out2) = run_commands out1 ++ run_commands out2.
Proof. unfold run_commands. apply flat_map_app. Qed.

Lemma run_commands_count (out : list effect) :
  count_of is_run out = len (run_commands out).
Proof.
  induction out as [|e out IH]; [reflexivity|].
  rewrite count_of_cons, IH.
  destruct e as [m|c]; cbn [is_run].
  - change (run_commands (Print m :: out)) with (run_commands out). lia.
  - change (run_commands (Run c :: out)) with (c :: run_commands out).
    rewrite len_cons. lia.
Qed.

Lemma warnings_facts (ip : str) (out : list effect) :
  Forall (fun e => e = Print (MsgWarning ip)) out ->
  run_commands out = [] /\ Forall (fun e => is_report e = false) out.
Proof.
  induction 1 as [|e out He _ [IH1 IH2]]; [split; [reflexivity|constructor]|].
  subst e. split; [exact IH1|now constructor].
Qed.

Section PhaseTwo.
Variable os : list str -> run_result.
Variable args : arguments.
Variables W R : Z.

Lemma add_to_ipset_facts (name ip : str) :
  run_commands (add_to_ipset os name ip R (arg_dryrun args))
  = (if arg_dryrun args then [] else [ipset_command name ip R])
  /\ Forall (fun e => is_report e = false)
            (add_to_ipset os name ip R (arg_dryrun args)).
Proof.
  unfold add_to_ipset. destruct (arg_dryrun args).
  - split; [reflexivity|repeat constructor].
  - fold (ipset_command name ip R).
    destruct (os (ipset_command name ip R)); split;
      try reflexivity; repeat constructor.
Qed.

(** One address: what its analysis contributes. *)
Lemma analyze_ip_summary (ip : str) (ts : list Z) :
  let r := analyze_ip os args W R ip ts in
  run_commands (fst r)
  = (if is_broke (snd r) && negb (arg_dryrun args)
     then [command_for args R ip] else [])
  /\ count_of is_violation (fst r) = (if is_broke (snd r) then 1 else 0)
  /\ count_of is_sink_call (fst r) = (if is_broke (snd r) then 1 else 0)
  /\ (is_broke (snd r) = true -> ip_address ip <> None)
  /\ Forall (fun e => is_report e = false) (fst r).
Proof.
  cbn zeta.
  destruct (analyze_ip_shape os args W R ip ts)
    as [[Hb [v [h [ws [we [Hv Hout]]]]]]|[Hnb Hw]].
  - rewrite Hb, Hout. cbn [is_broke].
    destruct (add_to_ipset_facts (target_ipset args v) ip) as [Hc Hr].
    destruct (add_to_ipset_counts os (target_ipset args v) ip R (arg_dryrun args))
      as [H1 [H2 _]].
    split; [|split; [|split; [|split]]].
    + cbn [run_commands flat_map app]. fold (run_commands
        (add_to_ipset os (target_ipset args v) ip R (arg_dryrun args))).
      rewrite Hc. unfold command_for. rewrite Hv.
      destruct (arg_dryrun args); reflexivity.
    + rewrite !count_of_cons, H1. reflexivity.
    + rewrite !count_of_cons, H2. reflexivity.
    + intros _. congruence.
    + repeat constructor. exact Hr.
  - assert (is_broke (snd (analyze_ip os args W R ip ts)) = false) as ->
        by (destruct (snd (analyze_ip os args W R ip ts)) eqn:E;
            cbn [is_broke]; congruence).
    destruct (warnings_no_violation ip _ Hw) as [_ [H1 [H2 _]]].
    destruct (warnings_facts ip _ Hw) as [H3 H4].
    cbn [andb]. repeat split; try assumption. discriminate.
Qed.

Lemma analyze_cons (ip : str) (ts : list Z) (items : index) :
  analyze os args W R ((ip, ts) :: items)
  = match snd (analyze_ip os args W R ip ts) with
    | Raised => (fst (analyze_ip os args W R ip ts), [], Some IndexError)
    | Overflowed => (fst (analyze_ip os args W R ip ts), [], Some OverflowError)
    | e =>
        (fst (analyze_ip os args W R ip ts)
         ++ fst (fst (analyze os args W R items)),
         (if is_broke e then [ip] else [])
         ++ snd (fst (analyze os args W R items)),
         snd (analyze os args W R items))
    end.
Proof.
  cbn [analyze].
  destruct (analyze_ip os args W R ip ts) as [out e].
  destruct (analyze os args W R items) as [[out' tr] raised].
  destruct e; reflexivity.
Qed.

(** The whole loop, whatever the threshold: one violation, one call of the
    sink and, unless in a dry run, one command per triggered address. *)
Lemma analyze_summary (items : index) :
  let out := fst (fst (analyze os args W R items)) in
  let triggered := snd (fst (analyze os args W R items)) in
  run_commands out
  = (if arg_dryrun args then [] else map (command_for args R) triggered)
  /\ count_of is_violation out = len triggered
  /\ count_of is_sink_call out = len triggered
  /\ (forall ip, In ip triggered -> In ip (keys items) /\ ip_address ip <> None)
  /\ (NoDup (keys items) -> NoDup triggered)
  /\ len triggered <= len items
  /\ Forall (fun e => is_report e = false) out.
Proof.
  induction items as [|[ip ts] items IH].
  - cbn [analyze fst snd].
    split; [destruct (arg_dryrun args); reflexivity|].
    split; [reflexivity|]. split; [reflexivity|].
    split; [intros ? []|]. split; [intros _; constructor|].
    split; [reflexivity|constructor].
  - cbn zeta in *. rewrite analyze_cons.
    destruct (analyze_ip_summary ip ts) as [Hc [Hv [Hs [Hb Hr]]]].
    destruct IH as [IHc [IHv [IHs [IHin [IHnd [IHlen IHr]]]]]].
    destruct (snd (analyze_ip os args W R ip ts)) eqn:He;
      cbn [fst snd is_broke andb app] in *.
    + rewrite run_commands_app, !count_of_app, Hc, Hv, Hs, IHc, IHv, IHs, len_cons.
      cbn [app]. split; [reflexivity|]. split; [lia|]. split; [lia|].
      split; [|split; [|split]].
      * intros x Hx. destruct (IHin x Hx). split; [now right|assumption].
      * intros Hnd. inversion Hnd; subst. now apply IHnd.
      * lia.
      * now apply Forall_app.
    + rewrite run_commands_app, !count_of_app, Hc, Hv, Hs, IHc, IHv, IHs, !len_cons.
      split; [destruct (arg_dryrun args); reflexivity|].
      split; [lia|]. split; [lia|]. split; [|split; [|split]].
      * intros x [<-|Hx]; [split; [now left|now apply Hb]|].
        destruct (IHin x Hx). split; [now right|assumption].
      * intros Hnd. inversion Hnd as [|? ? Hnotin Hnd']; subst.
        constructor; [|now apply IHnd].
        intros Hx. apply Hnotin. now apply IHin.
      * lia.
      * now apply Forall_app.
    + rewrite Hc, Hv, Hs. change (len (@nil str)) with 0.
      pose proof (len_nonneg items).
      split; [destruct (arg_dryrun args); reflexivity|].
      split; [reflexivity|]. split; [reflexivity|].
      split; [intros ? []|]. split; [intros _; constructor|].
      split; [rewrite len_cons; lia|exact Hr].
    + rewrite Hc, Hv, Hs. change (len (@nil str)) with 0.
      pose proof (len_nonneg items).
      split; [destruct (arg_dryrun args); reflexivity|].
      split; [reflexivity|]. split; [reflexivity|].
      split; [intros ? []|]. split; [intros _; constructor|].
      split; [rewrite len_cons; lia|exact Hr].
Qed.




(** X7.  An address [ip_address] refuses is warned about once for every
    start index whose window reaches the threshold, not once per address:
    the [continue] after the warning resumes the loop over the start
    indices.  This is the whole analysis of such an address when the
    threshold is positive and every window of its timeline ends inside the
    range of [datetime]. *)
Theorem X7_one_warning_per_qualifying_window (ip : str) (ts : list Z) :
  0 < arg_howmany args -> ip_address ip = None -> windows_fit W ts = true ->
  analyze_ip os args W R ip ts
  = (map (fun _ => Print (MsgWarning ip))
         (qualifying (arg_howmany args) W (sort ts)
                     (Z.to_nat (len ts - arg_howmany args + 1))),
     Exhausted).
Proof.
  intros HK Hip Hfit. rewrite analyze_ip_unfold.
  destruct (len ts <? arg_howmany args) eqn:Hlen.
  - apply Z.ltb_lt in Hlen.
    now replace (Z.to_nat (len ts - arg_howmany args + 1)) with 0%nat by lia.
  - apply Z.ltb_ge in Hlen. unfold qualifying.
    assert (0 + Z.to_nat (len ts - arg_howmany args + 1)
            <= List.length (sort ts))%nat as Hb
        by (rewrite sort_length; unfold len in *; lia).
    revert Hb. generalize (Z.to_nat (len ts - arg_howmany args + 1)) as m.
    generalize 0%nat as s. intros s m. revert s.
    induction m as [|m IH]; intros s Hb; [reflexivity|].
    cbn [seq map filter].
    rewrite scan_step
      by (first [lia|apply windows_fit_sort;
                     [exact Hfit|rewrite <- (sort_length ts); lia]]).
    rewrite Hip, IH by lia.
    destruct (arg_howmany args <=? window_hits W (sort ts) s); reflexivity.
Qed.

End PhaseTwo.

Lemma X7_one_warning_per_qualifying_window_witness :
  analyze_ip (fun _ => RunOk)
             (Args ($"blocked") ($"tcp") 2 ($"60s") ($"blacklist") ($"3h") false)
             60 10800 ($"1.2.3") [0; 10; 20; 200]
  = ([Print (MsgWarning ($"1.2.3")); Print (MsgWarning ($"1.2.3"))], Exhausted).
Proof.
  rewrite (X7_one_warning_per_qualifying_window
             (fun _ => RunOk)
             (Args ($"blocked") ($"tcp") 2 ($"60s") ($"blacklist") ($"3h") false)
             60 10800 ($"1.2.3") [0; 10; 20; 200] eq_refl eq_refl eq_refl).
  reflexivity.
Defined.


(** ** The whole program *)

(** A [timedelta] of whole seconds is its number of seconds. *)
Lemma timedelta_value (seconds delta : Z) :
  timedelta seconds = Some delta -> delta = seconds.
Proof.
  unfold timedelta.
  destruct ((-999999999 <=? seconds / 86400) && (seconds / 86400 <=? 999999999));
    [now intros [= <-]|discriminate].
Qed.

Lemma main_unfold (os : list str -> run_result) (now_year : Z) (args : arguments)
      (lines : list str) (W R : Z) :
  parse_duration_to_seconds (arg_within args) = inl W ->
  timedelta W = Some W ->
  parse_duration_to_seconds (arg_removeafter args) = inl R ->
  let st := read_log now_year args lines in
  let a := analyze os args W R (ip_timestamps st) in
  main os now_year args (Some lines)
  = (Print (MsgFinishedReading (matched_lines st))
     :: fst (fst a) ++ summary_of st (snd (fst a)) (snd a),
     snd a).
Proof.
  intros HW HT HR. cbn zeta. unfold main. rewrite HW, HT, HR.
  destruct (analyze os args W R _) as [[out tr] raised]. reflexivity.
Qed.

(** The ways [main] can go; the first three do not depend on the sink. *)
Lemma main_cases (now_year : Z) (args : arguments) (log : option (list str)) :
  (forall os, main os now_year args log = ([Print MsgDurationError], None))
  \/ (forall os, main os now_year args log = ([], Some OverflowError))
  \/ (forall os, main os now_year args log = ([Print MsgLogNotFound], None))
  \/ exists lines W R,
       log = Some lines
       /\ parse_duration_to_seconds (arg_within args) = inl W
       /\ timedelta W = Some W
       /\ parse_duration_to_seconds (arg_removeafter args) = inl R.
Proof.
  unfold main.
  destruct (parse_duration_to_seconds (arg_within args)) as [W|]; [|now left].
  destruct (timedelta W) as [W'|] eqn:HT; [|right; now left].
  pose proof (timedelta_value W W' HT) as ->.
  destruct (parse_duration_to_seconds (arg_removeafter args)) as [R|]; [|now left].
  destruct log as [lines|]; [|right; right; now left].
  right. right. right. now exists lines, W, R.
Qed.

Lemma command_for_injective (args : arguments) (R : Z) (ip1 ip2 : str) :
  command_for args R ip1 = command_for args R ip2 -> ip1 = ip2.
Proof.
  unfold command_for, ipset_command. intros H.
  injection H. intros. assumption.
Qed.

Lemma NoDup_map_injective {A B} (f : A -> B) (l : list A) :
  (forall x y, f x = f y -> x = y) -> NoDup l -> NoDup (map f l).
Proof.
  intros Hf. induction 1 as [|x l Hx Hnd IH]; cbn [map]; constructor; [|exact IH].
  intros Hin. apply in_map_iff in Hin. destruct Hin as [y [Hy Hin]].
  apply Hf in Hy. now subst y.
Qed.

(** X9.  What the program runs.  Every command is
    [ipset add <set> <address> timeout <seconds> -exist], where the address
    is a valid IPv4 or IPv6 address that has at least one event in the log,
    the set is the base name for IPv4 and the base name followed by [_v6]
    for IPv6, and the seconds are those of [--removeafter]; no address is
    added twice in one run. *)
Theorem X9_commands_of_a_run
        (os : list str -> run_result) (now_year : Z) (args : arguments)
        (lines : list str) (R : Z) :
  parse_duration_to_seconds (arg_removeafter args) = inl R ->
  let cmds := run_commands (fst (main os now_year args (Some lines))) in
  NoDup cmds
  /\ forall cmd, In cmd cmds ->
       exists ip v,
         ip_address ip = Some v /\ (v = 4 \/ v = 6)
         /\ events_of now_year args ip lines <> []
         /\ cmd = [$"ipset"; $"add";
                   (if v =? 6 then arg_ipset args ++ $"_v6" else arg_ipset args);
                   ip; $"timeout"; py_str R; $"-exist"].
Proof.
  intros HR. cbn zeta.
  destruct (parse_duration_to_seconds (arg_within args)) as [W|e] eqn:HW;
    [|unfold main; rewrite HW; split; [constructor|intros ? []]].
  destruct (timedelta W) as [W'|] eqn:HT;
    [|unfold main; rewrite HW, HT; split; [constructor|intros ? []]].
  pose proof (timedelta_value W W' HT) as ->.
  rewrite (main_unfold os now_year args lines W R HW HT HR). cbn [fst].
  change (run_commands (?e :: ?l)) with (run_commands l).
  rewrite run_commands_app.
  assert (forall st tr r, run_commands (summary_of st tr r) = []) as ->
      by (intros st tr [e|]; reflexivity).
  rewrite app_nil_r.
  destruct (analyze_summary os args W R (ip_timestamps (read_log now_year args lines)))
    as [Hc [_ [_ [Hin [Hnd _]]]]].
  destruct (index_round_trip now_year args lines) as [Hk [_ Hget]].
  rewrite Hc. destruct (arg_dryrun args); [split; [constructor|intros ? []]|].
  split.
  - apply NoDup_map_injective; [apply command_for_injective|now apply Hnd].
  - intros cmd Hcmd. apply in_map_iff in Hcmd.
    destruct Hcmd as [ip [<- Hip]]. destruct (Hin ip Hip) as [Hkey Hvalid].
    destruct (ip_address ip) as [v|] eqn:Hv; [|congruence].
    exists ip, v. split; [exact Hv|]. split; [exact (ip_address_version ip v Hv)|].
    split.
    + intros Hev. apply index_get_none in Hkey; [exact Hkey|].
      now rewrite Hget, Hev.
    + unfold command_for, ipset_command, target_ipset. now rewrite Hv.
Qed.

Lemma X9_commands_of_a_run_witness :
  run_commands
    (fst (main (fun _ => RunOk) 2025
               (Args ($"blocked") ($"tcp") 2 ($"60s") ($"blacklist") ($"2m") false)
               (Some [$"Jan  1 00:00:00 gw kernel: IP6TABLES-BLOCKED: SRC=2001:db8::7 PROTO=TCP";
                      $"Jan  1 00:00:30 gw kernel: IP6TABLES-BLOCKED: SRC=2001:db8::7 PROTO=TCP"])))
  = [[$"ipset"; $"add"; $"blacklist_v6"; $"2001:db8::7"; $"timeout"; $"120";
      $"-exist"]]
  /\ NoDup (run_commands
              (fst (main (fun _ => RunOk) 2025
                      (Args ($"blocked") ($"tcp") 2 ($"60s") ($"blacklist") ($"2m") false)
                      (Some [$"Jan  1 00:00:00 gw kernel: IP6TABLES-BLOCKED: SRC=2001:db8::7 PROTO=TCP";
                             $"Jan  1 00:00:30 gw kernel: IP6TABLES-BLOCKED: SRC=2001:db8::7 PROTO=TCP"])))).
Proof.
  split; [vm_compute; reflexivity|].
  apply (X9_commands_of_a_run
           (fun _ => RunOk) 2025
           (Args ($"blocked") ($"tcp") 2 ($"60s") ($"blacklist") ($"2m") false)
           _ 120 eq_refl).
Defined.

Section SinkAnswers.
Variables os1 os2 : list str -> run_result.
Variable args : arguments.
Variables W R : Z.

Lemma add_to_ipset_any_answer (name ip : str) (d : bool) :
  filter not_sink_failure (add_to_ipset os1 name ip R d)
  = filter not_sink_failure (add_to_ipset os2 name ip R d).
Proof.
  unfold add_to_ipset. destruct d; [reflexivity|].
  destruct (os1 _), (os2 _); reflexivity.
Qed.

Lemma scan_any_answer (ip : str) (t : list Z) (starts : list Z) :
  snd (scan_windows os1 args W R ip t starts)
  = snd (scan_windows os2 args W R ip t starts)
  /\ filter not_sink_failure (fst (scan_windows os1 args W R ip t starts))
     = filter not_sink_failure (fst (scan_windows os2 args W R ip t starts)).
Proof.
  induction starts as [|i starts IH]; [split; reflexivity|].
  cbn [scan_windows].
  destruct (getitem t i) as [ti|]; [|split; reflexivity].
  destruct (datetime_add ti W) as [we|]; [|split; reflexivity].
  destruct (count_hits _ _ _) as [c|]; [|split; reflexivity].
  destruct (arg_howmany args <=? 1 + c); [|exact IH].
  destruct (ip_address ip) as [v|].
  - cbn [fst snd filter not_sink_failure is_sink_failure negb].
    split; [reflexivity|]. do 2 f_equal. apply add_to_ipset_any_answer.
  - destruct (scan_windows os1 args W R ip t starts) as [out1 e1].
    destruct (scan_windows os2 args W R ip t starts) as [out2 e2].
    cbn [fst snd filter not_sink_failure is_sink_failure negb] in *.
    destruct IH as [-> ->]. split; reflexivity.
Qed.

Lemma analyze_ip_any_answer (ip : str) (ts : list Z) :
  snd (analyze_ip os1 args W R ip ts) = snd (analyze_ip os2 args W R ip ts)
  /\ filter not_sink_failure (fst (analyze_ip os1 args W R ip ts))
     = filter not_sink_failure (fst (analyze_ip os2 args W R ip ts)).
Proof.
  unfold analyze_ip. destruct (len ts <? arg_howmany args); [split; reflexivity|].
  apply scan_any_answer.
Qed.

Lemma analyze_any_answer (items : index) :
  snd (analyze os1 args W R items) = snd (analyze os2 args W R items)
  /\ snd (fst (analyze os1 args W R items)) = snd (fst (analyze os2 args W R items))
  /\ filter not_sink_failure (fst (fst (analyze os1 args W R items)))
     = filter not_sink_failure (fst (fst (analyze os2 args W R items))).
Proof.
  induction items as [|[ip ts] items [IH1 [IH2 IH3]]]; [repeat split|].
  rewrite !analyze_cons.
  destruct (analyze_ip_any_answer ip ts) as [He Hf]. rewrite <- He.
  destruct (snd (analyze_ip os1 args W R ip ts)); cbn [fst snd];
    rewrite ?filter_app, ?Hf, ?IH1, ?IH2, ?IH3; repeat split; assumption.
Qed.
End SinkAnswers.

(** X10.  A failing sink changes nothing else.  Whether the [ipset] command
    succeeds, fails or is missing, the program prints the same violations,
    attempts the same commands in the same order, counts the same triggered
    addresses in its summary and ends the same way; only the lines that
    report a failed command differ. *)
Theorem X10_sink_failures_are_not_fatal
        (os1 os2 : list str -> run_result) (now_year : Z) (args : arguments)
        (log : option (list str)) :
  filter not_sink_failure (fst (main os1 now_year args log))
  = filter not_sink_failure (fst (main os2 now_year args log))
  /\ snd (main os1 now_year args log) = snd (main os2 now_year args log).
Proof.
  destruct (main_cases now_year args log)
    as [H|[H|[H|[lines [W [R [-> [HW [HT HR]]]]]]]]];
    try (rewrite !H; split; reflexivity).
  rewrite !(main_unfold _ now_year args lines W R HW HT HR). cbn [fst snd].
  destruct (analyze_any_answer os1 os2 args W R
              (ip_timestamps (read_log now_year args lines))) as [H1 [H2 H3]].
  rewrite H1, H2. split; [|reflexivity].
  cbn [filter not_sink_failure is_sink_failure negb]. f_equal.
  now rewrite !filter_app, H3.
Qed.

(** X11.  The start-up errors, in the order of the program.  A [--within]
    that the duration parser refuses ends the program with its error
    message.  A [--within] that parses but is no [timedelta] (more than
    999999999 days in either direction) ends it in [OverflowError], which
    nothing catches, with nothing printed and [--removeafter] not looked
    at.  Then a [--removeafter] that the parser refuses gives the error
    message, and only then a missing log gives the other message.  Nothing
    is analysed and nothing is run in any of these cases. *)
Theorem X11_startup_errors
        (os : list str -> run_result) (now_year : Z) (args : arguments)
        (log : option (list str)) :
  ((exists e, parse_duration_to_seconds (arg_within args) = inr e) ->
   main os now_year args log = ([Print MsgDurationError], None))
  /\ (forall W,
         parse_duration_to_seconds (arg_within args) = inl W ->
         W < -999999999 * 86400 \/ 1000000000 * 86400 <= W ->
         main os now_year args log = ([], Some OverflowError))
  /\ (forall W,
         parse_duration_to_seconds (arg_within args) = inl W ->
         -999999999 * 86400 <= W < 1000000000 * 86400 ->
         ((exists e, parse_duration_to_seconds (arg_removeafter args) = inr e) ->
          main os now_year args log = ([Print MsgDurationError], None))
         /\ ((exists R, parse_duration_to_seconds (arg_removeafter args) = inl R) ->
             log = None ->
             main os now_year args log = ([Print MsgLogNotFound], None)))
  /\ (arg_within args = [] ->
      main os now_year args log = ([Print MsgDurationError], None)).
Proof.
  assert ((exists e, parse_duration_to_seconds (arg_within args) = inr e) ->
          main os now_year args log = ([Print MsgDurationError], None)) as Hbad.
  { unfold main. intros [e He]. now rewrite He. }
  split; [exact Hbad|split; [|split]].
  - intros W HW Hout. unfold main. rewrite HW.
    assert (timedelta W = None) as ->; [|reflexivity].
    unfold timedelta. destruct Hout as [Hlo|Hhi].
    + assert (W / 86400 < -999999999)
        by (apply Z.div_lt_upper_bound; lia).
      replace (-999999999 <=? W / 86400) with false
        by (symmetry; apply Z.leb_gt; lia).
      reflexivity.
    + assert (1000000000 <= W / 86400)
        by (apply Z.div_le_lower_bound; lia).
      replace (W / 86400 <=? 999999999) with false
        by (symmetry; apply Z.leb_gt; lia).
      now rewrite andb_false_r.
  - intros W HW Hin.
    assert (timedelta W = Some W) as HT.
    { unfold timedelta.
      assert (-999999999 <= W / 86400)
        by (apply Z.div_le_lower_bound; lia).
      assert (W / 86400 < 1000000000)
        by (apply Z.div_lt_upper_bound; lia).
      replace (-999999999 <=? W / 86400) with true
        by (symmetry; apply Z.leb_le; lia).
      replace (W / 86400 <=? 999999999) with true
        by (symmetry; apply Z.leb_le; lia).
      reflexivity. }
    split.
    + intros [e He]. unfold main. now rewrite HW, HT, He.
    + intros [R HR] ->. unfold main. now rewrite HW, HT, HR.
  - intros H. apply Hbad. rewrite H. now exists InvalidFormat.
Qed.

Lemma X11_startup_errors_witness :
  main (fun _ => RunOk) 2025
       (Args ($"blocked") ($"tcp") 2 ($"1000000000d") ($"blacklist") ($"2 min") false)
       None
  = ([], Some OverflowError).
Proof.
  apply (proj1 (proj2 (X11_startup_errors
                         (fun _ => RunOk) 2025
                         (Args ($"blocked") ($"tcp") 2 ($"1000000000d")
                               ($"blacklist") ($"2 min") false)
                         None)) 86400000000000).
  - reflexivity.
  - right. lia.
Defined.

(** X12.  A dry run runs nothing: with [--dryrun] no [ipset] command is
    handed to [subprocess.run], whatever the log, the threshold and the
    other arguments, and every call of [add_to_ipset] prints its [DRYRUN]
    line instead. *)
Theorem X12_dry_run_runs_nothing
        (os : list str -> run_result) (now_year : Z) (args : arguments)
        (log : option (list str)) :
  arg_dryrun args = true ->
  run_commands (fst (main os now_year args log)) = []
  /\ count_of is_run (fst (main os now_year args log)) = 0
  /\ forall ip name timeout,
       ~ In (Print (MsgAction ip name timeout)) (fst (main os now_year args log)).
Proof.
  intros Hd.
  assert (run_commands (fst (main os now_year args log)) = []) as Hnone.
  { destruct (main_cases now_year args log)
      as [H|[H|[H|[lines [W [R [-> [HW [HT HR]]]]]]]]];
      try (rewrite H; reflexivity).
    rewrite (main_unfold os now_year args lines W R HW HT HR). cbn [fst].
    change (run_commands (?e :: ?l)) with (run_commands l).
    rewrite run_commands_app.
    destruct (analyze_summary os args W R
                (ip_timestamps (read_log now_year args lines))) as [Hc _].
    rewrite Hc, Hd.
    destruct (snd (analyze os args W R (ip_timestamps (read_log now_year args lines))));
      reflexivity. }
  split; [exact Hnone|]. split; [now rewrite run_commands_count, Hnone|].
  intros ip name timeout Hin.
  destruct (main_cases now_year args log)
    as [H|[H|[H|[lines [W [R [-> [HW [HT HR]]]]]]]]];
    try (rewrite H in Hin; destruct Hin as [Hin|[]]; discriminate);
    try (rewrite H in Hin; destruct Hin).
  rewrite (main_unfold os now_year args lines W R HW HT HR) in Hin.
  cbn [fst] in Hin.
  destruct Hin as [Hin|Hin]; [discriminate|].
  apply in_app_or in Hin. destruct Hin as [Hin|Hin].
  - clear Hnone. revert Hin.
    induction (ip_timestamps (read_log now_year args lines)) as [|[k ts] items IH];
      [intros []|].
    rewrite analyze_cons.
    assert (~ In (Print (MsgAction ip name timeout))
              (fst (analyze_ip os args W R k ts))) as Hk.
    { destruct (analyze_ip_shape os args W R k ts)
        as [[_ [v [h [ws [we [_ Hout]]]]]]|[_ Hw]].
      - rewrite Hout, Hd. intros [H|[H|[H|[]]]]; discriminate.
      - rewrite Forall_forall in Hw. intros H. apply Hw in H. discriminate. }
    destruct (snd (analyze_ip os args W R k ts)); cbn [fst];
      try (intros H; apply in_app_or in H; destruct H as [H|H];
           [now apply Hk|now apply IH]);
      exact Hk.
  - destruct (snd (analyze os args W R (ip_timestamps (read_log now_year args lines))));
      [destruct Hin|destruct Hin as [Hin|[]]; discriminate].
Qed.

Lemma X12_dry_run_runs_nothing_witness :
  run_commands
    (fst (main (fun _ => FileNotFoundError) 2025
               (Args ($"blocked") ($"tcp") 1 ($"60s") ($"blacklist") ($"2m") true)
               (Some [$"Jan  1 00:00:00 gw kernel: IPTABLES-BLOCKED: SRC=192.0.2.9 PROTO=TCP"])))
  = [].
Proof.
  apply (X12_dry_run_runs_nothing
           (fun _ => FileNotFoundError) 2025
           (Args ($"blocked") ($"tcp") 1 ($"60s") ($"blacklist") ($"2m") true)).
  reflexivity.
Defined.

Lemma len_keys (idx : index) : len (keys idx) = len idx.
Proof. unfold keys, len. now rewrite length_map. Qed.

(** X13.  The summary adds up.  When the program prints its summary, the
    first number is the number of lines of the log, the last one is at once
    the number of [VIOLATION] lines printed and the number of calls of
    [add_to_ipset], and triggered <= unique addresses <= matched lines <=
    total lines. *)
Theorem X13_summary_adds_up
        (os : list str -> run_result) (now_year : Z) (args : arguments)
        (lines : list str) (total matched unique triggered : Z) :
  In (Print (MsgSummary total matched unique triggered))
     (fst (main os now_year args (Some lines))) ->
  total = len lines
  /\ matched = count_events now_year args lines + count_bad now_year args lines
  /\ unique = len (keys (ip_timestamps (read_log now_year args lines)))
  /\ triggered = count_of is_violation (fst (main os now_year args (Some lines)))
  /\ triggered = count_of is_sink_call (fst (main os now_year args (Some lines)))
  /\ 0 <= triggered <= unique /\ unique <= matched /\ matched <= total.
Proof.
  intros Hin.
  destruct (main_cases now_year args (Some lines))
    as [H|[H|[H|[lines' [W [R [Hl [HW [HT HR]]]]]]]]];
    try (rewrite H in Hin; destruct Hin as [Hin|[]]; discriminate);
    try (rewrite H in Hin; destruct Hin).
  clear Hl lines'.
  rewrite (main_unfold os now_year args lines W R HW HT HR) in *. cbn [fst] in *.
  destruct (analyze_summary os args W R
              (ip_timestamps (read_log now_year args lines)))
    as [_ [Hv [Hs [_ [_ [Hle Hr]]]]]].
  destruct (reader_counters now_year args lines) as [Ht [He [Hm [Hu [Hem Hmt]]]]].
  destruct Hin as [Hin|Hin]; [discriminate|].
  apply in_app_or in Hin. destruct Hin as [Hin|Hin].
  { rewrite Forall_forall in Hr. apply Hr in Hin. discriminate. }
  destruct (snd (analyze os args W R (ip_timestamps (read_log now_year args lines))));
    [destruct Hin|]. cbn [summary_of] in *.
  destruct Hin as [Hin|[]]. injection Hin as <- <- <- <-.
  rewrite !count_of_cons, !count_of_app, !count_of_cons, Hv, Hs.
  cbn [is_violation is_sink_call].
  change (count_of is_violation []) with 0.
  change (count_of is_sink_call []) with 0.
  pose proof (len_nonneg (snd (fst (analyze os args W R
                (ip_timestamps (read_log now_year args lines)))))).
  rewrite len_keys.
  repeat split; try lia.
Qed.

Lemma X13_summary_adds_up_witness :
  3 = len [$"Jan  1 00:00:00 gw kernel: IPTABLES-BLOCKED: SRC=192.0.2.9 PROTO=TCP";
           $"Jan 99 00:00:00 gw kernel: IPTABLES-BLOCKED: SRC=192.0.2.9 PROTO=TCP";
           $"noise"].
Proof.
  apply (X13_summary_adds_up
           (fun _ => RunOk) 2025
           (Args ($"blocked") ($"tcp") 1 ($"60s") ($"blacklist") ($"2m") true)
           _ 3 2 1 1).
  vm_compute. right. right. right. right. left. reflexivity.
Defined.

(** ** [str] and [int], and the seconds on the command line *)

Lemma uint_chars_digits (d : Decimal.uint) : forallb is_digit (uint_chars d) = true.
Proof. induction d; cbn; try reflexivity; exact IHd. Qed.

Lemma uint_chars_acc (d : Decimal.uint) (a : positive) :
  digits_value (Z.pos a) (uint_chars d) = Z.pos (Pos.of_uint_acc d a).
Proof.
  revert a. unfold digits_value.
  induction d as [|d IH|d IH|d IH|d IH|d IH|d IH|d IH|d IH|d IH|d IH];
    intros a; [reflexivity|..];
    cbn [uint_chars NilEmpty.string_of_uint list_ascii_of_string fold_left
         Pos.of_uint_acc];
    fold (uint_chars d); rewrite <- IH; f_equal;
    match goal with
    | |- context [digit_val ?c] =>
        let v := eval vm_compute in (digit_val c) in
        change (digit_val c) with v
    end; lia.
Qed.

Lemma uint_chars_value (d : Decimal.uint) :
  digits_value 0 (uint_chars d) = Z.of_N (Pos.of_uint d).
Proof.
  induction d as [|d IH|d IH|d IH|d IH|d IH|d IH|d IH|d IH|d IH|d IH];
    [reflexivity|exact IH|..];
    cbn [Pos.of_uint Z.of_N]; rewrite <- uint_chars_acc; reflexivity.
Qed.

Lemma uint_chars_nonnil (d : Decimal.uint) : d <> Decimal.Nil -> uint_chars d <> [].
Proof. destruct d; [congruence|..]; discriminate. Qed.

Lemma decimal_to_uint (p : positive) :
  decimal (uint_chars (Pos.to_uint p)) = Some (Z.pos p).
Proof.
  unfold decimal.
  pose proof (uint_chars_nonnil _ (Unsigned.to_uint_nonnil p)) as Hne.
  destruct (uint_chars (Pos.to_uint p)) as [|c cs] eqn:E; [congruence|].
  rewrite <- E, uint_chars_digits.
  fold (digits_value 0 (uint_chars (Pos.to_uint p))).
  now rewrite uint_chars_value, Unsigned.of_to.
Qed.

Lemma py_str_pos (p : positive) : py_str (Z.pos p) = uint_chars (Pos.to_uint p).
Proof.
  unfold py_str, uint_chars. cbn [Z.to_int NilZero.string_of_int].
  unfold NilZero.string_of_uint.
  pose proof (Unsigned.to_uint_nonnil p) as Hne.
  destruct (Pos.to_uint p); [congruence|..]; reflexivity.
Qed.

Lemma py_str_neg (p : positive) :
  py_str (Z.neg p) = "-"%char :: uint_chars (Pos.to_uint p).
Proof.
  unfold py_str, uint_chars. cbn [Z.to_int NilZero.string_of_int].
  unfold NilZero.string_of_uint.
  pose proof (Unsigned.to_uint_nonnil p) as Hne.
  destruct (Pos.to_uint p); [congruence|..]; reflexivity.
Qed.

Lemma spec_integer_py_str (n : Z) : spec_integer (py_str n) = Some n.
Proof.
  destruct n as [|p|p]; [reflexivity| |].
  - rewrite py_str_pos.
    pose proof (decimal_to_uint p) as Hd. unfold spec_integer.
    destruct (uint_chars (Pos.to_uint p)) as [|c cs] eqn:E; [discriminate|].
    assert (is_digit c = true) as Hc.
    { pose proof (uint_chars_digits (Pos.to_uint p)) as H. rewrite E in H.
      cbn [forallb] in H. now apply andb_true_iff in H. }
    destruct (digit_not_sign c Hc) as [_ ->]. exact Hd.
  - rewrite py_str_neg.
    unfold spec_integer. change (Ascii.eqb "-" "-") with true. cbv iota.
    now rewrite decimal_to_uint.
Qed.

Lemma lower_py_str (n : Z) : lower (py_str n) = py_str n.
Proof.
  destruct n as [|p|p]; [reflexivity| |].
  - rewrite py_str_pos. apply lower_digits. apply uint_chars_digits.
  - rewrite py_str_neg.
    cbn [lower map]. change (lower_char "-") with "-"%char. f_equal.
    apply lower_digits. apply uint_chars_digits.
Qed.

(** X14.  The seconds on the command line.  The timeout that
    [add_to_ipset] writes on the one [ipset] command it runs is the decimal
    form of the number of seconds it was given, and the duration parser
    reads that form back, followed by [s], as the same number.  More
    generally the parser accepts every integer written in decimal before a
    unit, zero and the negative ones included: it has no check of the sign.
    Both hold for the integers of at most 4300 digits, the most [int()]
    reads. *)
Theorem X14_seconds_round_trip (n : Z) (u : ascii) (m : Z) :
  multipliers u = Some m ->
  count_digits (py_str n) <= int_max_str_digits ->
  parse_duration_to_seconds (py_str n ++ [u]) = inl (n * m)
  /\ forall os name ip,
       exists command timeout,
         run_commands (add_to_ipset os name ip n false) = [command]
         /\ nth_error command 5 = Some timeout
         /\ parse_duration_to_seconds (timeout ++ ["s"%char]) = inl n.
Proof.
  intros Hu Hlim.
  assert (forall u' m', multipliers u' = Some m' ->
            parse_duration_to_seconds (py_str n ++ [u']) = inl (n * m')) as Hparse.
  { intros u' m' Hu'.
    rewrite (parse_duration_grammar _ _ _ _ Hu' (spec_integer_py_str n)).
    now replace (int_max_str_digits <? count_digits (py_str n)) with false
      by (symmetry; apply Z.ltb_ge; lia). }
  split; [now apply Hparse|].
  intros os name ip. exists (ipset_command name ip n), (py_str n).
  split; [|split].
  - unfold add_to_ipset. fold (ipset_command name ip n).
    destruct (os (ipset_command name ip n)); reflexivity.
  - reflexivity.
  - rewrite (Hparse "s"%char 1 eq_refl). f_equal. lia.
Qed.

Lemma X14_seconds_round_trip_witness :
  parse_duration_to_seconds (py_str (-90) ++ ["m"%char]) = inl (-90 * 60).
Proof.
  apply (X14_seconds_round_trip (-90) "m"%char 60).
  - reflexivity.
  - vm_compute. discriminate.
Defined.

(** ** The threshold below 1 *)

Section NonPositive.
Variable os : list str -> run_result.
Variable args : arguments.
Variables W R : Z.





End NonPositive.


